(** * Document-proc-convert: the job routes, the queue options and the
      upload clean-up, embedded from the JavaScript sources.

    - [Js]      the fragment of JavaScript evaluation the routes rely on
                ([parseInt], [||], [+] and [-] on numbers and strings);
    - [Errors]  src/middleware/errorHandler.js;
    - [Date]    [new Date(t).toISOString()], with the range of time values;
    - [Queue]   the handle [jobQueue] of src/routes/jobs.js and the calls
                the routes make on it;
    - [Jobs]    the four routes of src/routes/jobs.js;
    - [Worker]  the callback registered with [jobQueue.process];
    - [Retry], [Claim]  the retry policy and the claim step of the queue,
                which the queue library performs;
    - [Upload]  [cleanupFile] of src/middleware/fileUpload.js and the
                handlers of src/routes/convert.js and src/routes/ocr.js;
    - [Samples] concrete stores, environments and requests.

    The properties follow the definitions. *)

From Stdlib Require Import ZArith String Ascii List Lia.
From stdpp Require Import gmap strings list fin_maps sorting pretty.

#[local] Set Warnings "-register-all".

Open Scope Z_scope.

(** JSON values, as passed to [res.json]. An object is an association list
    in insertion order. [JNumber z] is a number that is the integer [z];
    [JRounded z] is the double nearest to an integer [z] beyond the safe
    integers, printed as [JSON.stringify] prints that double. *)
Inductive json :=
| JNull
| JBool (b : bool)
| JNumber (z : Z)
| JRounded (z : Z)
| JString (s : string)
| JArray (l : list json)
| JObject (fields : list (string * json)).

Definition json_field (k : string) (j : json) : option json :=
  match j with
  | JObject fields => snd <$> List.find (fun kv => String.eqb k (fst kv)) fields
  | _ => None
  end.

Definition has_field (k : string) (j : json) : bool :=
  match json_field k j with Some _ => true | None => false end.

(** [process.env] *)
Abbreviation Env := (gmap string string).

Module Js.

(** [Number.MAX_SAFE_INTEGER]: up to it, in both directions, every
    integer is a double. *)
Definition max_safe : Z := 2 ^ 53 - 1.

Definition safe (z : Z) : bool := (- max_safe <=? z) && (z <=? max_safe).

(** The numbers the code computes with: [Num z] is the safe integer [z];
    [Rounded z] is the double nearest to an integer [z] that is not safe
    (an integer of at least 2^53 in size, or an infinity), whose value is
    not computed; fractions do not occur. *)
Inductive num := Num (z : Z) | NaN | Rounded (z : Z).

(** The number an exact integer result is stored as. *)
Definition of_Z (z : Z) : num := if safe z then Num z else Rounded z.

(** The values that reach the arithmetic of the routes: [undefined], a
    number, or a string. *)
Inductive val := VUndefined | VNum (n : num) | VStr (s : string).

Definition is_ws (c : ascii) : bool :=
  let n := nat_of_ascii c in
  (Nat.eqb n 32 || Nat.eqb n 9 || Nat.eqb n 10 || Nat.eqb n 11
   || Nat.eqb n 12 || Nat.eqb n 13)%bool.

Fixpoint skip_ws (s : string) : string :=
  match s with
  | String c s' => if is_ws c then skip_ws s' else s
  | EmptyString => s
  end.

Definition digit_val (radix : Z) (c : ascii) : option Z :=
  let n := Z.of_nat (nat_of_ascii c) in
  let v :=
    if (48 <=? n) && (n <=? 57) then Some (n - 48)
    else if (97 <=? n) && (n <=? 122) then Some (n - 87)
    else if (65 <=? n) && (n <=? 90) then Some (n - 55)
    else None in
  match v with
  | Some d => if d <? radix then Some d else None
  | None => None
  end.

(** The longest prefix of radix digits, as a number; [None] when it is
    empty. *)
Fixpoint digits_prefix (radix : Z) (s : string) (acc : option Z) : option Z :=
  match s with
  | String c s' =>
      match digit_val radix c with
      | Some d => digits_prefix radix s' (Some (default 0 acc * radix + d))
      | None => acc
      end
  | EmptyString => acc
  end.

Definition strip_sign (s : string) : Z * string :=
  match s with
  | String "-" s' => (-1, s')
  | String "+" s' => (1, s')
  | _ => (1, s)
  end.

Definition strip_hex (s : string) : Z * string :=
  match s with
  | String "0" (String "x" s') => (16, s')
  | String "0" (String "X" s') => (16, s')
  | _ => (10, s)
  end.

(** [parseInt(string)] with no radix argument. *)
Definition parseInt_string (s : string) : num :=
  let '(sign, s1) := strip_sign (skip_ws s) in
  let '(radix, s2) := strip_hex s1 in
  match digits_prefix radix s2 None with
  | Some z => of_Z (sign * z)
  | None => NaN
  end.

(** [parseInt(v)]: the argument is first converted to a string;
    ["undefined"] and ["NaN"] have no leading digit. *)
Definition parseInt (v : val) : num :=
  match v with
  | VUndefined => NaN
  | VNum n => n
  | VStr s => parseInt_string s
  end.

Definition truthy_num (n : num) : bool :=
  match n with Num z => negb (z =? 0) | NaN => false | Rounded _ => true end.

(** [a || b] on numbers. *)
Definition or_num (a b : num) : num := if truthy_num a then a else b.

Definition truthy_str (s : string) : bool :=
  match s with EmptyString => false | _ => true end.

(** An environment variable or a query parameter: absent or a string. *)
Definition of_option (o : option string) : val :=
  match o with Some s => VStr s | None => VUndefined end.

(** [o || d] for an optional string and a string default. *)
Definition or_str (o : option string) (d : string) : string :=
  match o with
  | Some s => if truthy_str s then s else d
  | None => d
  end.

Fixpoint all_digits (s : string) : bool :=
  match s with
  | String c s' =>
      match digit_val 10 c with Some _ => all_digits s' | None => false end
  | EmptyString => true
  end.

Fixpoint rev_string (s acc : string) : string :=
  match s with
  | String c s' => rev_string s' (String c acc)
  | EmptyString => acc
  end.

Definition trim (s : string) : string :=
  rev_string (skip_ws (rev_string (skip_ws s) "")) "".

(** [Number(s)] for a string holding a safe decimal integer, with optional
    sign and surrounding white space; the empty string is [0]. [None]
    stands for every other string: [NaN], an integer that is not safe, or
    a literal form (fraction, exponent, radix prefix, [Infinity]) that is
    not modelled. *)
Definition toNumber_string (s : string) : option Z :=
  let t := trim s in
  match t with
  | EmptyString => Some 0
  | _ =>
      let '(sign, d) := strip_sign t in
      match d with
      | EmptyString => None
      | _ => if all_digits d
             then z ← digits_prefix 10 d None;
                  if safe z then Some (sign * z) else None
             else None
      end
  end.

Definition toNumber (v : val) : option Z :=
  match v with
  | VUndefined => None
  | VNum (Num z) => if safe z then Some z else None
  | VNum _ => None
  | VStr s => toNumber_string s
  end.

(** Decimal rendering of an integer, [String(n)]. *)
Definition string_of_Z (z : Z) : string := pretty z.

(** [String(v)]; [None] for a number whose digits are not modelled. *)
Definition toString (v : val) : option string :=
  match v with
  | VUndefined => Some "undefined"
  | VNum (Num z) => if safe z then Some (string_of_Z z) else None
  | VNum NaN => Some "NaN"
  | VNum (Rounded _) => None
  | VStr s => Some s
  end.

(** [a + b]: numeric addition on two numbers, concatenation as soon as
    one operand is a string. [None] as in [toString], and for a sum with
    a number that is not modelled. *)
Definition add (a b : val) : option val :=
  match a, b with
  | VStr _, _ | _, VStr _ =>
      x ← toString a; y ← toString b; Some (VStr (x +:+ y))
  | VNum (Num x), VNum (Num y) =>
      if safe x && safe y then Some (VNum (of_Z (x + y))) else None
  | VNum (Rounded _), _ | _, VNum (Rounded _) => None
  | _, _ => Some (VNum NaN)
  end.

(** [a - k] for a number literal [k]: the left operand is converted to a
    number. [None] as in [toNumber]. *)
Definition sub_lit (a : val) (k : Z) : option Z :=
  (fun x => x - k) <$> toNumber a.

(** A number as [JSON.stringify] prints it. *)
Definition json_of_num (n : num) : json :=
  match n with
  | Num z => JNumber z
  | NaN => JNull
  | Rounded z => JRounded z
  end.

End Js.

(** What a handler sends: [res.status(..).json(..)] or
    [res.set(..); res.send(buffer)]. *)
Inductive payload := Json (j : json) | Raw (bytes : string).

Record response := {
  status : Z;
  headers : list (string * string);
  body : payload
}.

Definition json_response (st : Z) (j : json) : response :=
  {| status := st; headers := []; body := Json j |}.

Definition body_field (k : string) (r : response) : option json :=
  match body r with Json j => json_field k j | Raw _ => None end.

(** ** src/middleware/errorHandler.js *)
Module Errors.

(** The properties of a thrown object that [errorHandler] reads. *)
Record error := {
  name : string;
  message : string;
  code : option string;
  err_status : option Z;
  details : option json
}.

Definition ValidationError (msg : string) : error :=
  {| name := "ValidationError"; message := msg; code := None;
     err_status := None; details := Some (JObject []) |}.

Definition ConversionError (msg : string) : error :=
  {| name := "ConversionError"; message := msg; code := None;
     err_status := None; details := None |}.

Definition JobNotFoundError (msg : string) : error :=
  {| name := "JobNotFoundError"; message := msg; code := None;
     err_status := None; details := None |}.

(** [process.env.MAX_FILE_SIZE / 1024 / 1024] is a floating-point
    quotient; the message keeps it unevaluated. *)
Definition max_file_size_mb (env : Env) : string :=
  "${" +:+ default "undefined" (env !! "MAX_FILE_SIZE") +:+ " / 1024 / 1024}".

Definition code_is (c : string) (err : error) : bool :=
  match code err with Some c' => String.eqb c' c | None => false end.

Definition errorHandler (env : Env) (err : error) : response :=
  if code_is "LIMIT_FILE_SIZE" err then
    json_response 413 (JObject [
      ("error", JString "File too large");
      ("message", JString ("Maximum file size is " +:+ max_file_size_mb env +:+ "MB"));
      ("code", JString "FILE_TOO_LARGE")])
  else if code_is "LIMIT_UNEXPECTED_FILE" err then
    json_response 400 (JObject [
      ("error", JString "Invalid file");
      ("message", JString "Unexpected file field");
      ("code", JString "INVALID_FILE_FIELD")])
  else if String.eqb (name err) "ValidationError" then
    json_response 400 (JObject [
      ("error", JString "Validation failed");
      ("message", JString (message err));
      ("details", default (JObject []) (details err));
      ("code", JString "VALIDATION_ERROR")])
  else if String.eqb (name err) "ConversionError" then
    json_response 422 (JObject [
      ("error", JString "Conversion failed");
      ("message", JString (message err));
      ("code", JString "CONVERSION_ERROR")])
  else if String.eqb (name err) "JobNotFoundError" then
    json_response 404 (JObject [
      ("error", JString "Job not found");
      ("message", JString (message err));
      ("code", JString "JOB_NOT_FOUND")])
  else
    json_response
      (match err_status err with
       | Some s => if s =? 0 then 500 else s
       | None => 500
       end)
      (JObject [
        ("error", JString "Internal server error");
        ("message", JString
           (if decide (env !! "NODE_ENV" = Some "production")
            then "An unexpected error occurred" else message err));
        ("code", JString "INTERNAL_ERROR")]).

End Errors.

(** ** [Date]: [new Date(t).toISOString()] *)
Module Date.

(** The time values a [Date] holds: at most 8.64e15 ms from the epoch, on
    either side. [new Date(t)] is an invalid date for any other number. *)
Definition max_time : Z := 8640000000000000.

Definition valid (t : Z) : bool := (- max_time <=? t) && (t <=? max_time).

(** What [toISOString] throws on an invalid date. *)
Definition RangeError : Errors.error :=
  {| Errors.name := "RangeError"; Errors.message := "Invalid time value";
     Errors.code := None; Errors.err_status := None;
     Errors.details := None |}.

Definition msPerDay : Z := 86400000.

(** Year, month (1 to 12) and day of the month of a day number counted
    from 1970-01-01, in the proleptic Gregorian calendar: the 400-year
    cycle of 146097 days is entered at 0000-03-01. *)
Definition civil (day : Z) : Z * Z * Z :=
  let z := day + 719468 in
  let era := z / 146097 in
  let doe := z mod 146097 in
  let yoe := (doe - doe / 1460 + doe / 36524 - doe / 146096) / 365 in
  let doy := doe - (365 * yoe + yoe / 4 - yoe / 100) in
  let mp := (5 * doy + 2) / 153 in
  let d := doy - (153 * mp + 2) / 5 + 1 in
  let m := if mp <? 10 then mp + 3 else mp - 9 in
  (yoe + era * 400 + (if m <=? 2 then 1 else 0), m, d).

Definition digit_char (d : Z) : ascii := ascii_of_nat (48 + Z.to_nat d).

(** The [k] low decimal digits of [n], most significant first. *)
Fixpoint pad (k : nat) (n : Z) : string :=
  match k with
  | O => EmptyString
  | S k' => String (digit_char (n / 10 ^ Z.of_nat k' mod 10)) (pad k' n)
  end.

(** Four digits for the years 0 to 9999, a sign and six digits for the
    others. *)
Definition year_text (y : Z) (rest : string) : string :=
  if (0 <=? y) && (y <=? 9999) then pad 4 y +:+ rest
  else String (if y <? 0 then "-"%char else "+"%char) (pad 6 (Z.abs y) +:+ rest).

(** [YYYY-MM-DDTHH:mm:ss.sssZ] of a valid time value. *)
Definition toISOString (t : Z) : string :=
  let '(y, m, d) := civil (t / msPerDay) in
  let ms := t mod msPerDay in
  year_text y
    (String "-" (pad 2 m +:+ String "-" (pad 2 d +:+ String "T" (
       pad 2 (ms / 3600000) +:+ String ":" (pad 2 (ms / 60000 mod 60) +:+
       String ":" (pad 2 (ms / 1000 mod 60) +:+ String "." (
       pad 3 (ms mod 1000) +:+ "Z"))))))).

(** Reading the text back, as [Date.parse] does for this format: digits
    of the given widths between the marks, with the month, the day and
    the time of day in range. *)
Fixpoint read (k : nat) (s : string) (acc : Z) : option (Z * string) :=
  match k with
  | O => Some (acc, s)
  | S k' =>
      match s with
      | String c s' =>
          let n := Z.of_nat (nat_of_ascii c) in
          if (48 <=? n) && (n <=? 57) then read k' s' (acc * 10 + (n - 48))
          else None
      | EmptyString => None
      end
  end.

Definition expect (c : ascii) (s : string) : option string :=
  match s with
  | String c' s' => if Ascii.eqb c c' then Some s' else None
  | EmptyString => None
  end.

(** The day number of a date: the inverse of [civil]. *)
Definition days (y m d : Z) : Z :=
  let y' := if m <=? 2 then y - 1 else y in
  let era := y' / 400 in
  let yoe := y' mod 400 in
  let doy := (153 * (if 2 <? m then m - 3 else m + 9) + 2) / 5 + d - 1 in
  era * 146097 + (yoe * 365 + yoe / 4 - yoe / 100 + doy) - 719468.

(** The check that [days] undoes [civil] on one day of the 400-year
    cycle, and that the month and the day are in range. *)
Definition cycle_ok (doe : Z) : bool :=
  let yoe := (doe - doe / 1460 + doe / 36524 - doe / 146096) / 365 in
  let doy := doe - (365 * yoe + yoe / 4 - yoe / 100) in
  let mp := (5 * doy + 2) / 153 in
  let d := doy - (153 * mp + 2) / 5 + 1 in
  let m := if mp <? 10 then mp + 3 else mp - 9 in
  (0 <=? yoe) && (yoe <=? 399) && (1 <=? m) && (m <=? 12)
  && (1 <=? d) && (d <=? 31)
  && (yoe * 365 + yoe / 4 - yoe / 100
      + ((153 * (if 2 <? m then m - 3 else m + 9) + 2) / 5 + d - 1) =? doe).

(** [f] on the [n] integers from [i] on. *)
Fixpoint upto (n : nat) (i : Z) (f : Z -> bool) : bool :=
  match n with
  | O => true
  | S k => f i && upto k (i + 1) f
  end.

Definition read_year (s : string) : option (Z * string) :=
  match s with
  | String "-" s' => '(y, r) ← read 6 s' 0; Some (- y, r)
  | String "+" s' => read 6 s' 0
  | _ => read 4 s 0
  end.

Definition parse (s : string) : option Z :=
  '(y, s) ← read_year s;
  s ← expect "-" s; '(m, s) ← read 2 s 0;
  s ← expect "-" s; '(d, s) ← read 2 s 0;
  s ← expect "T" s; '(h, s) ← read 2 s 0;
  s ← expect ":" s; '(mi, s) ← read 2 s 0;
  s ← expect ":" s; '(sec, s) ← read 2 s 0;
  s ← expect "." s; '(ms, s) ← read 3 s 0;
  s ← expect "Z" s;
  match s with
  | EmptyString =>
      if (1 <=? m) && (m <=? 12) && (1 <=? d) && (d <=? 31)
         && (h <=? 23) && (mi <=? 59) && (sec <=? 59)
      then Some (days y m d * msPerDay + h * 3600000 + mi * 60000
                 + sec * 1000 + ms)
      else None
  | _ => None
  end.

End Date.

(** What a route handler does with a request: answer it, pass an error to
    [next], or (for the router) match no route. *)
Inductive outcome :=
| Responded (r : response)
| Next (e : Errors.error)
| NoRoute.

(** ** The queue handle of src/routes/jobs.js *)
Module Queue.

(** The uploaded file a job refers to ([job.data.file]). *)
Record file := { originalname : string; path : string }.

Record job_data := {
  type : option string;
  data_file : option file;
  options : json
}.

(** A job as the routes see it. [state] is what [job.getState()] answers;
    [returnvalue] and [failedReason] are the stored values as JSON
    ([JNull] while there is none). *)
Record job := {
  id : string;
  data : job_data;
  timestamp : Z;
  processedOn : option Z;
  finishedOn : option Z;
  progress : json;
  returnvalue : json;
  failedReason : json;
  attemptsMade : Z;
  state : string
}.

(** [parseInt(process.env.JOB_ATTEMPTS) || 3] *)
Definition attempts (env : Env) : Js.num :=
  Js.or_num (Js.parseInt (Js.of_option (env !! "JOB_ATTEMPTS"))) (Js.Num 3).

(** [defaultJobOptions], the object literal the queue is created with. *)
Definition defaultJobOptions (env : Env) : json :=
  JObject [
    ("attempts", Js.json_of_num (attempts env));
    ("backoff", JObject [("type", JString "exponential");
                         ("delay", JNumber 2000)]);
    ("removeOnComplete", JBool false);
    ("removeOnFail", JBool false)].

(** What the queue library answers to [getJobs([s], start, end)] when the
    bounds are not two safe integers written in decimal digits (one of
    them is [NaN], a fraction, an exponent or radix form, a text that is
    no number, or an integer from 2^53 on): the route hands [offset] on as
    it is and [offset + limit - 1]; the call resolves to some listing or
    rejects. It is given by the state asked for and the two values the
    bounds are computed from. *)
Definition listing : Type := string -> Js.val -> Js.val -> Errors.error + list job.

(** A queue on a store that answers: the job records of the store, the
    options the queue was created with, and the library's answer to a
    listing with bounds that are not integers. *)
Record queue := {
  jobs : gmap string job;
  opts : json;
  odd_bounds : listing
}.

(** The handle. Every call on it is awaited inside the handler's [try]:
    [Up q] answers from [q]; [Down e] is a handle whose store cannot be
    reached, so that each call rejects with the client's error [e]. *)
Inductive handle := Up (q : queue) | Down (e : Errors.error).

(** [let jobQueue = null; if (process.env.REDIS_URL) { jobQueue = new
    Queue(..) }]; [redis] is the store at start-up: its records, or the
    error its client raises; [bull] is the library's part in [queue]. *)
Definition jobQueue (env : Env) (redis : Errors.error + gmap string job)
    (bull : listing) : option handle :=
  match env !! "REDIS_URL" with
  | Some url =>
      if Js.truthy_str url
      then Some (match redis with
                 | inr records =>
                     Up {| jobs := records; opts := defaultJobOptions env;
                           odd_bounds := bull |}
                 | inl e => Down e
                 end)
      else None
  | None => None
  end.

(** [await jobQueue.getJob(jobId)]: the record or [null]; or the call
    rejects. *)
Definition getJob (h : handle) (jobId : string) : Errors.error + option job :=
  match h with
  | Up q => inr (jobs q !! jobId)
  | Down e => inl e
  end.

(** The error [job.remove()] rejects with when a worker holds the job. *)
Definition could_not_remove (j : job) : Errors.error :=
  {| Errors.name := "Error";
     Errors.message := "Could not remove job " +:+ id j;
     Errors.code := None; Errors.err_status := None;
     Errors.details := None |}.

(** [await job.remove()]: the handle afterwards, or the call rejects. An
    [active] job is held by the worker that runs it, and the library
    refuses to remove it; any other job is deleted. *)
Definition remove (h : handle) (j : job) : Errors.error + handle :=
  match h with
  | Up q =>
      if String.eqb (state j) "active" then inl (could_not_remove j)
      else inr (Up {| jobs := delete (id j) (jobs q); opts := opts q;
                      odd_bounds := odd_bounds q |})
  | Down e => inl e
  end.

Definition older (a b : job) : Prop := timestamp a <= timestamp b.

#[global] Instance older_dec : RelDecision older.
Proof. intros a b. unfold older. apply _. Defined.

(** The jobs of one state, oldest first. *)
Definition in_state (q : queue) (s : string) : list job :=
  merge_sort older
    (filter (fun j => state j = s) (snd <$> map_to_list (jobs q))).

(** Modelled from the spec: [jobQueue.getJobs([s], start, end)], the
    listing of section 4.1, "ordered by createdAt ascending within each
    state", restricted to the positions [start..end], both included,
    counted from 0. Negative positions are not modelled. *)
Definition getJobs (q : queue) (s : string) (start stop : Z) : list job :=
  take (Z.to_nat (stop - start + 1)) (drop (Z.to_nat start) (in_state q s)).

End Queue.

(** ** src/routes/jobs.js: the four routes *)
Module Jobs.
Import Queue.

(** The guard every route starts with. *)
Definition unavailable : response :=
  json_response 503 (JObject [
    ("error", JString "Job queue not available");
    ("message", JString "Async processing requires Redis connection")]).

(** [new Date(ms).toISOString()], for a time value the date accepts. *)
Definition toISOString (ms : Z) : json := JString (Date.toISOString ms).

(** [t ? new Date(t).toISOString() : null] *)
Definition iso_or_null (t : option Z) : json :=
  match t with
  | Some ms => if ms =? 0 then JNull else toISOString ms
  | None => JNull
  end.

(** Whether [t ? new Date(t).toISOString() : null] returns: it throws on a
    truthy [t] that is no valid time value. *)
Definition renders (t : option Z) : bool :=
  match t with
  | Some ms => (ms =? 0) || Date.valid ms
  | None => true
  end.

(** Whether the three dates of a job's status can be rendered. *)
Definition dated (job : job) : bool :=
  Date.valid (timestamp job) && renders (processedOn job)
  && renders (finishedOn job).

Definition not_found (jobId : string) : Errors.error :=
  Errors.JobNotFoundError ("Job " +:+ jobId +:+ " not found").

(** [router.get('/:jobId/status')] *)
Definition status_handler (jq : option handle) (jobId : string) : outcome :=
  match jq with
  | None => Responded unavailable
  | Some h =>
      match getJob h jobId with
      | inl error => Next error
      | inr None => Next (not_found jobId)
      | inr (Some job) =>
          let st := state job in
          if negb (dated job) then Next Date.RangeError else
          let response := [
            ("jobId", JString (id job));
            ("state", JString st);
            ("progress", progress job);
            ("createdAt", toISOString (timestamp job));
            ("processedAt", iso_or_null (processedOn job));
            ("finishedAt", iso_or_null (finishedOn job))] in
          let response :=
            if String.eqb st "completed" then
              response ++ [("result", returnvalue job)]
            else if String.eqb st "failed" then
              response ++ [("error", failedReason job);
                           ("attemptsMade", JNumber (attemptsMade job))]
            else response in
          Responded (json_response 200 (JObject response))
      end
  end.

(** [router.get('/:jobId/download')] *)
Definition download_handler (jq : option handle) (jobId : string) : outcome :=
  match jq with
  | None => Responded unavailable
  | Some h =>
      match getJob h jobId with
      | inl error => Next error
      | inr None => Next (not_found jobId)
      | inr (Some job) =>
          let st := state job in
          if negb (String.eqb st "completed") then
            Responded (json_response 400 (JObject [
              ("error", JString "Job not ready");
              ("message", JString ("Job is in " +:+ st +:+ " state"));
              ("jobId", JString jobId)]))
          else
            let result := returnvalue job in
            Responded (json_response 200 (JObject [
              ("jobId", JString jobId);
              ("message", JString "File download endpoint - to be implemented");
              ("result", result)]))
      end
  end.

(** [router.delete('/:jobId')]; the second component is the handle after
    the call. *)
Definition cancel_handler (jq : option handle) (jobId : string)
  : outcome * option handle :=
  match jq with
  | None => (Responded unavailable, jq)
  | Some h =>
      match getJob h jobId with
      | inl error => (Next error, jq)
      | inr None => (Next (not_found jobId), jq)
      | inr (Some job) =>
          let st := state job in
          if String.eqb st "completed" || String.eqb st "failed" then
            (Responded (json_response 400 (JObject [
               ("error", JString "Cannot cancel job");
               ("message", JString ("Job already " +:+ st))])), jq)
          else
            match remove h job with
            | inl error => (Next error, jq)
            | inr h' =>
                (Responded (json_response 200 (JObject [
                   ("success", JBool true);
                   ("message", JString ("Job " +:+ jobId +:+ " cancelled"));
                   ("jobId", JString jobId)])),
                 Some h')
            end
      end
  end.

Definition states : list string :=
  ["waiting"; "active"; "completed"; "failed"; "delayed"].

(** A key whose value may be [undefined]: [JSON.stringify] drops it. *)
Definition opt_field (k : string) (o : option json) : list (string * json) :=
  match o with Some v => [(k, v)] | None => [] end.

Definition job_summary (job : job) : json :=
  JObject [
    ("jobId", JString (id job));
    ("state", JString (state job));
    ("progress", progress job);
    ("createdAt", toISOString (timestamp job));
    ("data", JObject (
       opt_field "type" (JString <$> type (data job)) ++
       opt_field "filename"
         (JString <$> (originalname <$> data_file (data job)))))].

(** [const { state = 'all', limit = 20, offset = 0 } = req.query]: a
    parameter of the query string is a string, a default is a number. *)
Definition query_num (query : gmap string string) (k : string) (d : Z) : Js.val :=
  match query !! k with
  | Some s => Js.VStr s
  | None => Js.VNum (Js.Num d)
  end.

(** The bounds handed to [getJobs]: [offset] and [offset + limit - 1].
    [None] when one of them is not a safe integer. *)
Definition window (offset limit : Js.val) : option (Z * Z) :=
  start ← Js.toNumber offset;
  sum ← Js.add offset limit;
  stop ← Js.sub_lit sum 1;
  Some (start, stop).

(** The selection of [router.get('/')]: the loop over [states] for
    ['all'], one call otherwise. *)
Definition select_jobs (q : queue) (st : string) (start stop : Z) : list job :=
  if String.eqb st "all" then
    foldl (fun jobs s => jobs ++ getJobs q s start stop) [] states
  else getJobs q st start stop.

(** The same selection when the bounds are not integers: the first call
    that rejects leaves the loop. *)
Definition select_odd (q : queue) (st : string) (offset limit : Js.val)
  : Errors.error + list job :=
  if String.eqb st "all" then
    foldl (fun found s =>
             match found with
             | inl error => inl error
             | inr jobs =>
                 match odd_bounds q s offset limit with
                 | inl error => inl error
                 | inr stateJobs => inr (jobs ++ stateJobs)
                 end
             end) (inr []) states
  else odd_bounds q st offset limit.

(** [router.get('/')]. The summary of a job whose [timestamp] is no valid
    time value throws, and the error goes to [next]. *)
Definition list_handler (jq : option handle) (query : gmap string string)
  : outcome :=
  match jq with
  | None => Responded unavailable
  | Some (Down error) => Next error
  | Some (Up q) =>
      let st := default "all" (query !! "state") in
      let limit := query_num query "limit" 20 in
      let offset := query_num query "offset" 0 in
      let found :=
        match window offset limit with
        | Some (start, stop) => inr (select_jobs q st start stop)
        | None => select_odd q st offset limit
        end in
      match found with
      | inl error => Next error
      | inr jobs =>
          if forallb (fun job => Date.valid (timestamp job)) jobs then
            Responded (json_response 200 (JObject [
              ("jobs", JArray (job_summary <$> jobs));
              ("total", JNumber (Z.of_nat (length jobs)));
              ("limit", Js.json_of_num (Js.parseInt limit));
              ("offset", Js.json_of_num (Js.parseInt offset))]))
          else Next Date.RangeError
      end
  end.

(** The operations the router offers. *)
Inductive operation :=
| Status (jobId : string)
| Download (jobId : string)
| Cancel (jobId : string)
| List (query : gmap string string).

Inductive method := GET | POST | PUT | PATCH | DELETE.

(** A request as the router sees it: [path] holds the non-empty segments
    below the mount point, [req_body] the parsed JSON body. *)
Record request := {
  meth : method;
  path : list string;
  query : gmap string string;
  req_body : json
}.

(** The routes, in the order they are registered. *)
Definition route (req : request) : option operation :=
  match meth req, path req with
  | GET, [jobId; "status"] => Some (Status jobId)
  | GET, [jobId; "download"] => Some (Download jobId)
  | DELETE, [jobId] => Some (Cancel jobId)
  | GET, [] => Some (List (query req))
  | _, _ => None
  end.

(** One operation on the handle: what the handler does and the handle
    afterwards. *)
Definition perform (jq : option handle) (op : operation)
  : outcome * option handle :=
  match op with
  | Status jobId => (status_handler jq jobId, jq)
  | Download jobId => (download_handler jq jobId, jq)
  | Cancel jobId => cancel_handler jq jobId
  | List query => (list_handler jq query, jq)
  end.

(** The router: a request that matches no route is passed on. *)
Definition router (jq : option handle) (req : request)
  : outcome * option handle :=
  match route req with
  | Some op => perform jq op
  | None => (NoRoute, jq)
  end.

(** The answer the client gets for an operation: the handler's own, or
    the one [errorHandler] builds from the error passed to [next]. *)
Definition answer (env : Env) (o : outcome) : option response :=
  match o with
  | Responded r => Some r
  | Next e => Some (Errors.errorHandler env e)
  | NoRoute => None
  end.

Definition serve (env : Env) (jq : option handle) (op : operation)
  : option (response * option handle) :=
  let '(o, jq') := perform jq op in
  r ← answer env o;
  Some (r, jq').

(** The enqueue request of the interface: a POST to the job routes that
    declares a conversion type. *)
Definition enqueue_request (t : string) : request :=
  {| meth := POST; path := []; query := ∅;
     req_body := JObject [("type", JString t)] |}.

(** An outcome that rejects a request with the error called [n]: that
    error is passed to [next], or a 4xx response names it. *)
Definition rejected_with (n : string) (o : outcome) : Prop :=
  match o with
  | Next e => Errors.name e = n
  | Responded r =>
      400 <= status r < 500
      ∧ (body_field "error" r = Some (JString n)
         ∨ body_field "code" r = Some (JString n))
  | NoRoute => False
  end.

End Jobs.

(** ** The worker callback of src/routes/jobs.js *)
Module Worker.
Import Queue.

Definition TypeError (msg : string) : Errors.error :=
  {| Errors.name := "TypeError"; Errors.message := msg; Errors.code := None;
     Errors.err_status := None; Errors.details := None |}.

(** [jobQueue.process('convert', async (job) => ..)]: the simulated
    wait in milliseconds, then the value returned or the error thrown
    ([file.originalname] throws when the job carries no file). The job
    type only appears in the text of the result. *)
Definition processor (j : job) : Z * (Errors.error + json) :=
  (2000,
   match data_file (data j) with
   | None =>
       inl (TypeError "Cannot read properties of undefined (reading 'originalname')")
   | Some f =>
       inr (JObject [
         ("success", JBool true);
         ("result", JString ("Processed " +:+ default "undefined" (type (data j))
                             +:+ " conversion for " +:+ originalname f))])
   end).

End Worker.

(** ** The retry policy the queue applies to a failed attempt *)
Module Retry.
Import Queue.

Record policy := { maxAttempts : Z; base : Z }.

(** The policy the handle was configured with: [attempts] and
    [backoff.delay] of [defaultJobOptions]. *)
Definition policy_of (o : json) : option policy :=
  match json_field "attempts" o, json_field "backoff" o with
  | Some (JNumber n), Some b =>
      match json_field "type" b, json_field "delay" b with
      | Some (JString "exponential"), Some (JNumber d) =>
          Some {| maxAttempts := n; base := d |}
      | _, _ => None
      end
  | _, _ => None
  end.

(** Modelled from the spec: the transitions of section 4.2. The queue
    library that performs them is not part of the sources; only its
    configuration ([defaultJobOptions]) and the callback are.

    "delay = base * 2^(attemptsMade-1)" *)
Definition backoff (p : policy) (n : Z) : Z := base p * 2 ^ (n - 1).

(** Modelled from the spec: "[waiting]: eligible for claim"; a claim
    makes the job [active] and stamps [processedAt] the first time. *)
Definition claim (now : Z) (j : job) : job :=
  {| id := id j; data := data j; timestamp := timestamp j;
     processedOn := match processedOn j with Some t => Some t | None => Some now end;
     finishedOn := finishedOn j; progress := progress j;
     returnvalue := returnvalue j; failedReason := failedReason j;
     attemptsMade := attemptsMade j; state := "active" |}.

(** Modelled from the spec: "On success: active -> completed, result
    set, finishedAt stamped." *)
Definition on_success (now : Z) (res : json) (j : job) : job :=
  {| id := id j; data := data j; timestamp := timestamp j;
     processedOn := processedOn j; finishedOn := Some now;
     progress := progress j; returnvalue := res;
     failedReason := failedReason j; attemptsMade := attemptsMade j;
     state := "completed" |}.

(** Modelled from the spec: "On failure: attemptsMade += 1; if
    attemptsMade < maxAttempts, active -> delayed with a computed backoff
    delay; else active -> failed, failureReason set, finishedAt stamped."
    The second component is the delay before the job is eligible again. *)
Definition on_failure (p : policy) (now : Z) (reason : string) (j : job)
  : job * option Z :=
  let n := attemptsMade j + 1 in
  if n <? maxAttempts p then
    ({| id := id j; data := data j; timestamp := timestamp j;
        processedOn := processedOn j; finishedOn := finishedOn j;
        progress := progress j; returnvalue := returnvalue j;
        failedReason := failedReason j; attemptsMade := n;
        state := "delayed" |}, Some (backoff p n))
  else
    ({| id := id j; data := data j; timestamp := timestamp j;
        processedOn := processedOn j; finishedOn := Some now;
        progress := progress j; returnvalue := returnvalue j;
        failedReason := JString reason; attemptsMade := n;
        state := "failed" |}, None).

(** Modelled from the spec: "completed/failed are terminal". *)
Definition terminal (j : job) : bool :=
  String.eqb (state j) "completed" || String.eqb (state j) "failed".

(** Modelled from the spec: the life of one job under the worker loop
    "claim, dispatch, record outcome". [outs] gives the outcome of each
    Converter invocation in turn ([inl reason] for a failure); the result
    is the job once terminal (or once [outs] is used up) and the delays
    it waited, in order. *)
Fixpoint execute (p : policy) (now : Z) (outs : list (string + json)) (j : job)
  : job * list Z :=
  match outs with
  | [] => (j, [])
  | o :: outs' =>
      if terminal j then (j, [])
      else
        let a := claim now j in
        match o with
        | inr res => (on_success now res a, [])
        | inl reason =>
            match on_failure p now reason a with
            | (j', Some d) =>
                let '(jf, ds) := execute p now outs' j' in (jf, d :: ds)
            | (j', None) => (j', [])
            end
        end
  end.

End Retry.

(** ** The claim step of the queue store *)
Module Claim.
Import Queue.

(** Modelled from the spec: the Queue Store of section 4.1 as seen by
    [claimNext]: the job records, the time at which a delayed job is due,
    and the worker holding each active claim. The library and the store
    that implement it are not part of the sources. *)
Record store := {
  records : gmap string job;
  due : gmap string Z;
  holder : gmap string string
}.

Definition waiting (kj : string * job) : Prop := state kj.2 = "waiting".

#[global] Instance waiting_dec kj : Decision (waiting kj).
Proof. unfold waiting. apply _. Defined.

(** Modelled from the spec: "one waiting (or due delayed) job". *)
Definition eligible (now : Z) (s : store) (kj : string * job) : Prop :=
  state kj.2 = "waiting" ∨
  (state kj.2 = "delayed" ∧ ∃ t, due s !! kj.1 = Some t ∧ t <= now).

#[global] Instance eligible_dec now s kj : Decision (eligible now s kj).
Proof.
  unfold eligible.
  destruct (due s !! kj.1) as [t|] eqn:E.
  - destruct (decide (state kj.2 = "waiting")); [left; by left|].
    destruct (decide (state kj.2 = "delayed" ∧ t <= now)) as [[? ?]|Hn].
    + left. right. split; [done|]. by exists t.
    + right. intros [?|[? [t' [Ht ?]]]]; [done|].
      apply Hn. split; [done|]. congruence.
  - destruct (decide (state kj.2 = "waiting")); [left; by left|].
    right. intros [?|[? [t' [Ht ?]]]]; [done|congruence].
Defined.

(** Modelled from the spec: "the store's claimNext must pick the oldest
    eligible record, not an arbitrary one". *)
Fixpoint oldest (l : list (string * job)) : option (string * job) :=
  match l with
  | [] => None
  | x :: l' =>
      match oldest l' with
      | Some y => if timestamp x.2 <=? timestamp y.2 then Some x else Some y
      | None => Some x
      end
  end.

(** Modelled from the spec: "claimNext(workerId): atomically selects one
    waiting (or due delayed) job, transitions it to active, stamps
    processedAt on first claim, returns it". One call is one step on the
    store. *)
Definition claimNext (now : Z) (workerId : string) (s : store)
  : option (string * job) * store :=
  match oldest (filter (eligible now s) (map_to_list (records s))) with
  | None => (None, s)
  | Some (k, j) =>
      let a := Retry.claim now j in
      (Some (k, a),
       {| records := <[k := a]> (records s);
          due := delete k (due s);
          holder := <[k := workerId]> (holder s) |})
  end.

(** Modelled from the spec: "claimNext must be atomic", so calls issued
    by several workers take effect one after the other, in some order;
    [workers] lists the callers in that order. *)
Fixpoint claimAll (now : Z) (workers : list string) (s : store)
  : list (string * option (string * job)) * store :=
  match workers with
  | [] => ([], s)
  | w :: ws =>
      let '(r, s1) := claimNext now w s in
      let '(rs, s2) := claimAll now ws s1 in
      ((w, r) :: rs, s2)
  end.

Definition waiting_count (s : store) : nat :=
  size (filter waiting (records s)).

(** The ids of the jobs a list of calls returned. *)
Definition claimed (rs : list (string * option (string * job))) : list string :=
  omap (fun r => fst <$> r.2) rs.

End Claim.

(** ** src/middleware/fileUpload.js ([cleanupFile]) and the handlers of
    src/routes/convert.js and src/routes/ocr.js *)
Module Upload.

(** [req.file], as multer fills it. *)
Record file := {
  originalname : string;
  filename : string;
  path : string;
  mimetype : string;
  size : Z
}.

(** The file system: the paths that exist, and those [fs.unlink] is
    refused on. *)
Record fs := { files : gset string; denied : gset string }.

(** [fs.unlink(p)]: [None] when it rejects (no such file, or refused). *)
Definition unlink (p : string) (w : fs) : option fs :=
  if decide (p ∈ files w ∧ p ∉ denied w)
  then Some {| files := files w ∖ {[p]}; denied := denied w |}
  else None.

(** What an observer sees of a handler, in order. *)
Inductive event :=
| Answer (o : outcome)
| Unlink (p : string) (ok : bool)
| ConsoleError.

Definition tempDir (env : Env) : string :=
  Js.or_str (env !! "TEMP_DIR") "/tmp/document-processing".

Definition cleanupFile (env : Env) (filePath : string) (w : fs)
  : list event * fs :=
  if Js.truthy_str filePath && String.prefix (tempDir env) filePath then
    match unlink filePath w with
    | Some w' => ([Unlink filePath true], w')
    | None => ([Unlink filePath false; ConsoleError], w)
    end
  else ([], w).

Record request := {
  req_file : option file;
  req_body : gmap string string;
  req_query : gmap string string
}.

(** [a || b] on two optional strings. *)
Definition or_opt (a b : option string) : option string :=
  match a with
  | Some s => if Js.truthy_str s then a else b
  | None => b
  end.

Definition param (req : request) (k : string) : option string :=
  or_opt (req_body req !! k) (req_query req !! k).

(** [req.body.k !== 'false' && req.query.k !== 'false'] *)
Definition not_false (req : request) (k : string) : bool :=
  negb (bool_decide (req_body req !! k = Some "false"))
  && negb (bool_decide (req_query req !! k = Some "false")).

(** [req.body.k === 'true' || req.query.k === 'true'] *)
Definition is_true (req : request) (k : string) : bool :=
  bool_decide (req_body req !! k = Some "true")
  || bool_decide (req_query req !! k = Some "true").

Record office_result := {
  o_filename : string; o_buffer : string; o_size : Z; o_convertedFrom : string
}.
Record file_result := { f_filename : string; f_buffer : string }.
Record sheet_result := { s_data : json; s_sheets : json; s_rowCount : Z }.
Record ocr_file_result := {
  c_mimeType : string; c_filename : string; c_buffer : string; c_confidence : string
}.

(** The converters are external collaborators: each may change the file
    system and either returns its result or throws. *)
Record services := {
  processOfficeConversion : file -> fs -> fs * (Errors.error + office_result);
  processExcelToCsv : file -> option string -> string -> fs -> fs * (Errors.error + file_result);
  processCsvToExcel : file -> string -> bool -> fs -> fs * (Errors.error + file_result);
  processExcelToJson : file -> option string -> bool -> fs -> fs * (Errors.error + sheet_result);
  processJsonToExcel : file -> string -> fs -> fs * (Errors.error + file_result);
  processHtmlToMarkdown : file -> fs -> fs * (Errors.error + file_result);
  processMarkdownToHtml : file -> bool -> fs -> fs * (Errors.error + file_result);
  extractTextFromImage : file -> string -> string -> fs -> fs * (Errors.error + json);
  processOcrToFile : file -> string -> string -> fs -> fs * (Errors.error + ocr_file_result)
}.

Definition dquote : string := String (ascii_of_nat 34) EmptyString.

Definition attachment (name : string) : string * string :=
  ("Content-Disposition", "attachment; filename=" +:+ dquote +:+ name +:+ dquote).

Definition send (hs : list (string * string)) (buffer : string) : response :=
  {| status := 200; headers := hs; body := Raw buffer |}.

(** [res.set({..}); res.send(result.buffer)] of the routes that answer
    with a converted file. *)
Definition send_file (contentType : string) (f : file) (r : file_result) : response :=
  send [("Content-Type", contentType); attachment (f_filename r);
        ("X-Original-Filename", originalname f)] (f_buffer r).

Inductive endpoint :=
| OfficeToPdf | ExcelToCsv | CsvToExcel | ExcelToJson | JsonToExcel
| HtmlToMarkdown | MarkdownToHtml | ExtractText | ExtractToFile.

Definition xlsx_type : string :=
  "application/vnd.openxmlformats-officedocument.spreadsheetml.sheet".

Definition missing_file (ep : endpoint) : string :=
  match ep with
  | ExtractText | ExtractToFile => "No image file uploaded"
  | _ => "No file uploaded"
  end.

(** A thrown error passes through; a result is turned into the response. *)
Definition on_result {A B} (f : A -> B) (r : Errors.error + A) : Errors.error + B :=
  match r with inl e => inl e | inr a => inr (f a) end.

(** The body of the [try] block once a file is known to be there: the
    call of the converter and the response built from its result. *)
Definition work (sv : services) (ep : endpoint) (req : request) (f : file) (w : fs)
  : fs * (Errors.error + response) :=
  match ep with
  | OfficeToPdf =>
      let '(w', r) := processOfficeConversion sv f w in
      (w', on_result (fun result =>
         send [("Content-Type", "application/pdf");
               attachment (o_filename result);
               ("Content-Length", Js.string_of_Z (o_size result));
               ("X-Original-Filename", originalname f);
               ("X-Converted-From", o_convertedFrom result)]
              (o_buffer result)) r)
  | ExcelToCsv =>
      let sheetName := param req "sheetName" in
      let delimiter := Js.or_str (param req "delimiter") "," in
      let '(w', r) := processExcelToCsv sv f sheetName delimiter w in
      (w', on_result (send_file "text/csv" f) r)
  | CsvToExcel =>
      let delimiter := Js.or_str (param req "delimiter") "," in
      let hasHeaders := not_false req "hasHeaders" in
      let '(w', r) := processCsvToExcel sv f delimiter hasHeaders w in
      (w', on_result (send_file xlsx_type f) r)
  | ExcelToJson =>
      let sheetName := param req "sheetName" in
      let hasHeaders := not_false req "hasHeaders" in
      let '(w', r) := processExcelToJson sv f sheetName hasHeaders w in
      (w', on_result (fun result =>
         json_response 200 (JObject [
           ("success", JBool true);
           ("originalFile", JString (originalname f));
           ("data", s_data result);
           ("sheets", s_sheets result);
           ("rowCount", JNumber (s_rowCount result))])) r)
  | JsonToExcel =>
      let sheetName := Js.or_str (param req "sheetName") "Sheet1" in
      let '(w', r) := processJsonToExcel sv f sheetName w in
      (w', on_result (send_file xlsx_type f) r)
  | HtmlToMarkdown =>
      let '(w', r) := processHtmlToMarkdown sv f w in
      (w', on_result (send_file "text/markdown" f) r)
  | MarkdownToHtml =>
      let includeStyles := is_true req "includeStyles" in
      let '(w', r) := processMarkdownToHtml sv f includeStyles w in
      (w', on_result (send_file "text/html" f) r)
  | ExtractText =>
      let language := Js.or_str (param req "language") "eng" in
      let outputFormat := Js.or_str (param req "outputFormat") "text" in
      let '(w', r) := extractTextFromImage sv f language outputFormat w in
      (w', on_result (json_response 200) r)
  | ExtractToFile =>
      let language := Js.or_str (param req "language") "eng" in
      let format := Js.or_str (param req "format") "txt" in
      let '(w', r) := processOcrToFile sv f language format w in
      (w', on_result (fun result =>
         send [("Content-Type", c_mimeType result);
               attachment (c_filename result);
               ("X-Original-Filename", originalname f);
               ("X-OCR-Confidence", c_confidence result)]
              (c_buffer result)) r)
  end.

(** One handler: [try { if (!file) throw ..; .. } catch (error) {
    next(error) } finally { if (file) await cleanupFile(file.path) }]. *)
Definition handler (env : Env) (sv : services) (ep : endpoint)
    (req : request) (w : fs) : list event * fs :=
  let file := req_file req in
  let '(w1, o) :=
    match file with
    | None => (w, Next (Errors.ValidationError (missing_file ep)))
    | Some f =>
        let '(w', r) := work sv ep req f w in
        (w', match r with inl e => Next e | inr resp => Responded resp end)
    end in
  let '(evs, w2) :=
    match file with
    | Some f => cleanupFile env (path f) w1
    | None => ([], w1)
    end in
  (Answer o :: evs, w2).

End Upload.


(** ** Concrete stores, environments and requests *)
Module Samples.
Import Queue.

Definition sample_data (f : option file) : job_data :=
  {| type := Some "office-to-pdf"; data_file := f; options := JNull |}.

(** A job created at [1000 + i]. *)
Definition sample_job (st : string) (i : Z) : string * job :=
  let k := "j" +:+ Js.string_of_Z i in
  (k, {| id := k; data := sample_data None;
         timestamp := 1000 + i; processedOn := None; finishedOn := None;
         progress := JNumber 0; returnvalue := JNull; failedReason := JNull;
         attemptsMade := 0; state := st |}).

(** A library that rejects a listing whose bounds are not integers, with
    the error of the store. *)
Definition not_an_integer : Errors.error :=
  {| Errors.name := "ReplyError";
     Errors.message := "ERR value is not an integer or out of range";
     Errors.code := None; Errors.err_status := None;
     Errors.details := None |}.

Definition rejecting : listing := fun _ _ _ => inl not_an_integer.

Definition queue_of (l : list (string * job)) : queue :=
  {| jobs := list_to_map l; opts := defaultJobOptions ∅;
     odd_bounds := rejecting |}.

(** Twelve waiting jobs. *)
Definition twelve_waiting : queue :=
  queue_of (sample_job "waiting" <$> [0; 1; 2; 3; 4; 5; 6; 7; 8; 9; 10; 11]).

(** One job per state of interest. *)
Definition mixed : queue :=
  queue_of [sample_job "waiting" 0; sample_job "completed" 1;
            sample_job "failed" 2; sample_job "active" 3].

(** A job that carries a file and declares a type no converter has. *)
Definition odd_job : job :=
  {| id := "j7";
     data := {| type := Some "no-such-type";
                data_file := Some {| originalname := "a.docx";
                                     path := "/tmp/document-processing/a.docx" |};
                options := JNull |};
     timestamp := 1007; processedOn := None; finishedOn := None;
     progress := JNumber 0; returnvalue := JNull; failedReason := JNull;
     attemptsMade := 0; state := "waiting" |}.

(** The error of a client whose connection is refused. *)
Definition econnrefused : Errors.error :=
  {| Errors.name := "Error";
     Errors.message := "connect ECONNREFUSED 127.0.0.1:6379";
     Errors.code := Some "ECONNREFUSED";
     Errors.err_status := None; Errors.details := None |}.

Definition redis_env : Env := {[ "REDIS_URL" := "redis://localhost:6379" ]}.

(** An environment that asks for a timeout of one second. *)
Definition timeout_env : Env :=
  {[ "REDIS_URL" := "redis://localhost:6379"; "JOB_TIMEOUT" := "1000" ]}.

(** Three workers and a store of three waiting jobs and an active one. *)
Definition three_waiting : Claim.store :=
  {| Claim.records := list_to_map
       [sample_job "waiting" 2; sample_job "waiting" 0;
        sample_job "active" 3; sample_job "waiting" 1];
     Claim.due := ∅;
     Claim.holder := {[ "j3" := "w0" ]} |}.

(** An uploaded file in the temporary directory, and converters that
    fail. *)
Definition uploaded : Upload.file :=
  {| Upload.originalname := "report.docx";
     Upload.filename := "3f2a-1700000000000.docx";
     Upload.path := "/tmp/document-processing/3f2a-1700000000000.docx";
     Upload.mimetype := "application/msword";
     Upload.size := 2048 |}.

Definition upload_request : Upload.request :=
  {| Upload.req_file := Some uploaded; Upload.req_body := ∅;
     Upload.req_query := ∅ |}.

Definition disk : Upload.fs :=
  {| Upload.files := {[ Upload.path uploaded ]}; Upload.denied := ∅ |}.

Definition failing {A} (w : Upload.fs) : Upload.fs * (Errors.error + A) :=
  (w, inl (Errors.ConversionError "Failed to convert")).

Definition failing_services : Upload.services :=
  {| Upload.processOfficeConversion := fun _ => failing;
     Upload.processExcelToCsv := fun _ _ _ => failing;
     Upload.processCsvToExcel := fun _ _ _ => failing;
     Upload.processExcelToJson := fun _ _ _ => failing;
     Upload.processJsonToExcel := fun _ _ => failing;
     Upload.processHtmlToMarkdown := fun _ => failing;
     Upload.processMarkdownToHtml := fun _ _ => failing;
     Upload.extractTextFromImage := fun _ _ _ => failing;
     Upload.processOcrToFile := fun _ _ _ => failing |}.

End Samples.


(** ** The CSV row code of the data converter (kept in
    src/middleware/fileUpload.js): [parseCSVRow] and the cell escaping of
    [processExcelToCsv] *)
Module Csv.

Section Units.
(** A JavaScript string is a sequence of code units; [quote] is the unit
    of the double quote. *)
Context {U : Type} `{EqDecision U}.
Variable quote : U.

(** The loop of [parseCSVRow], from position [i] on: [row] is what is left
    of the row, [current] and [inQuotes] are the loop variables, the result
    is what is pushed on [values] from here on. [char === delimiter]
    compares a one-unit string with the whole delimiter. *)
Fixpoint parse_from (delimiter row current : list U) (inQuotes : bool)
  : list (list U) :=
  match row with
  | [] => [current]
  | char :: rest =>
      if decide (char = quote) then
        match rest with
        | nextChar :: rest' =>
            if inQuotes && bool_decide (nextChar = quote)
            then parse_from delimiter rest' (current ++ [quote]) inQuotes
            else parse_from delimiter rest current (negb inQuotes)
        | [] => parse_from delimiter rest current (negb inQuotes)
        end
      else if bool_decide (delimiter = [char]) && negb inQuotes
      then current :: parse_from delimiter rest [] false
      else parse_from delimiter rest (current ++ [char]) inQuotes
  end.

Definition parseCSVRow (row delimiter : list U) : list (list U) :=
  parse_from delimiter row [] false.

Fixpoint starts_with (needle hay : list U) : bool :=
  match needle, hay with
  | [], _ => true
  | n :: needle', h :: hay' => bool_decide (n = h) && starts_with needle' hay'
  | _ :: _, [] => false
  end.

(** [hay.includes(needle)] *)
Fixpoint includes (needle hay : list U) : bool :=
  starts_with needle hay
  || match hay with
     | [] => false
     | _ :: hay' => includes needle hay'
     end.

(** [s.replace(..)] of the escaping: every double quote is doubled. *)
Definition double_quotes (s : list U) : list U :=
  flat_map (fun c => if decide (c = quote) then [quote; quote] else [c]) s.

(** [parts.join(sep)] *)
Fixpoint join (sep : list U) (parts : list (list U)) : list U :=
  match parts with
  | [] => []
  | [p] => p
  | p :: parts' => p ++ sep ++ join sep parts'
  end.

(** The value of a worksheet cell after the two conversions at the head of
    the callback (a date to its ISO text, an object to its JSON text):
    [null], or a value seen through its truthiness and its [toString()]. *)
Inductive cell := Null | Value (truthy : bool) (text : list U).

(** The rest of the callback of [row.eachCell]: the field pushed on
    [rowData], or [None] when [value.toString()] throws on [null]. *)
Definition field (delimiter : list U) (c : cell) : option (list U) :=
  match c with
  | Null => None
  | Value truthy text =>
      if (truthy && includes delimiter text) || includes [quote] text
      then Some ([quote] ++ double_quotes text ++ [quote])
      else Some (if truthy then text else [])
  end.

(** One line of the CSV: [rowData.join(delimiter)], or [None] when a cell
    of the row throws. *)
Definition csv_row (delimiter : list U) (cells : list cell) : option (list U) :=
  join delimiter <$> mapM (field delimiter) cells.

(** What a reader of the line should find in the place of a cell. *)
Definition shown (c : cell) : list U :=
  match c with
  | Null => []
  | Value truthy text =>
      if truthy || includes [quote] text then text else []
  end.

End Units.

(** The values [cell.value] takes, with the texts of dates and objects as
    [toISOString] and [JSON.stringify] give them; numbers are integers. *)
Inductive value :=
| VNull
| VBool (b : bool)
| VNumber (z : Z)
| VString (s : string)
| VDate (iso : string)
| VObject (json_text : string).

Definition units (s : string) : list ascii := list_ascii_of_string s.

Definition dquote : ascii := ascii_of_nat 34.

Definition cell_of (v : value) : cell :=
  match v with
  | VNull => Null
  | VBool b => Value b (units (if b then "true" else "false"))
  | VNumber z => Value (negb (z =? 0)) (units (Js.string_of_Z z))
  | VString s => Value (Js.truthy_str s) (units s)
  | VDate iso => Value true (units iso)
  | VObject t => Value true (units t)
  end.

End Csv.


(** ** src/middleware/auth.js, and its use in src/app.js *)
Module Auth.

(** What a middleware does: call [next()], here with the value it stored
    in [req.rapidapi] if any, or answer itself. *)
Inductive result :=
| Continue (rapidapi : option json)
| Denied (r : response).

Definition unauthorized : response :=
  json_response 401 (JObject [
    ("error", JString "Unauthorized");
    ("message", JString "Invalid API credentials");
    ("code", JString "UNAUTHORIZED")]).

(** [validateRapidAPI]; [headers] is [req.headers], keyed by lower-case
    name. *)
Definition validateRapidAPI (env : Env) (headers : gmap string string) : result :=
  let proxySecret := headers !! "x-rapidapi-proxy-secret" in
  let expectedSecret := env !! "RAPIDAPI_PROXY_SECRET" in
  match expectedSecret with
  | None => Continue None
  | Some expected =>
      if negb (Js.truthy_str expected) then Continue None
      else
        match proxySecret with
        | None => Denied unauthorized
        | Some given =>
            if negb (Js.truthy_str given) || negb (String.eqb given expected)
            then Denied unauthorized
            else Continue (Some (JObject (
                   Jobs.opt_field "user" (JString <$> headers !! "x-rapidapi-user")
                   ++ Jobs.opt_field "subscription"
                        (JString <$> headers !! "x-rapidapi-subscription")
                   ++ Jobs.opt_field "version"
                        (JString <$> headers !! "x-rapidapi-version"))))
        end
  end.

(** [if (process.env.NODE_ENV === 'production') app.use('/api/',
    validateRapidAPI)]: what stands in front of the API routes. *)
Definition api_guard (env : Env) (headers : gmap string string) : result :=
  if decide (env !! "NODE_ENV" = Some "production")
  then validateRapidAPI env headers
  else Continue None.

End Auth.


(** ** The functions of Node's [path] module and of [String] that the
    upload code calls (POSIX flavour; strings are sequences of bytes and
    [toLowerCase] acts on the ASCII letters) *)
Module Path.

Definition slash : ascii := ascii_of_nat 47.
Definition dot : ascii := ascii_of_nat 46.

(** The units before the first [c]. *)
Fixpoint before (c : ascii) (l : list ascii) : list ascii :=
  match l with
  | [] => []
  | x :: l' => if decide (x = c) then [] else x :: before c l'
  end.

(** The units after the first [c]; [None] when there is no [c]. *)
Fixpoint after (c : ascii) (l : list ascii) : option (list ascii) :=
  match l with
  | [] => None
  | x :: l' => if decide (x = c) then Some l' else after c l'
  end.

Fixpoint skip (c : ascii) (l : list ascii) : list ascii :=
  match l with
  | x :: l' => if decide (x = c) then skip c l' else l
  | [] => []
  end.

(** The last portion of a path, read from its end: trailing slashes are
    passed over, and the portion stops at the next slash. *)
Definition last_portion_rev (p : string) : list ascii :=
  before slash (skip slash (reverse (list_ascii_of_string p))).

(** [path.extname(p)]: from the last dot of the last portion to its end;
    empty when the portion has no dot, when its only dot is its first
    unit, and for the portion [..]. *)
Definition extname (p : string) : string :=
  let portion := last_portion_rev p in
  match after dot portion with
  | None => ""
  | Some [] => ""
  | Some (_ :: _) =>
      if decide (portion = [dot; dot]) then ""
      else string_of_list_ascii (dot :: reverse (before dot portion))
  end.

(** [path.basename(p, path.extname(p))]: the last portion without its
    extension. *)
Definition stem (p : string) : string :=
  let portion := last_portion_rev p in
  match extname p, after dot portion with
  | String _ _, Some name => string_of_list_ascii (reverse name)
  | _, _ => string_of_list_ascii (reverse portion)
  end.

Definition digit (c : ascii) : Prop :=
  c ∈ list_ascii_of_string "0123456789".

Definition lower (c : ascii) : ascii :=
  let n := nat_of_ascii c in
  if (Nat.leb 65 n && Nat.leb n 90)%bool then ascii_of_nat (n + 32) else c.

(** [s.toLowerCase()] *)
Fixpoint toLowerCase (s : string) : string :=
  match s with
  | EmptyString => EmptyString
  | String c s' => String (lower c) (toLowerCase s')
  end.

(** The portions of a path between its slashes. *)
Fixpoint split (l : list ascii) : list (list ascii) :=
  match l with
  | [] => [[]]
  | x :: l' =>
      if decide (x = slash) then [] :: split l'
      else match split l' with
           | portion :: portions => (x :: portion) :: portions
           | [] => [[x]]
           end
  end.

(** One portion in [path.normalize]: an empty portion and [.] are
    dropped; [..] takes back the portion before it, or is kept in front of
    a relative path; [kept] holds the portions kept so far, last first. *)
Definition step (allowAboveRoot : bool) (kept : list (list ascii))
    (portion : list ascii) : list (list ascii) :=
  if decide (portion = []) then kept
  else if decide (portion = [dot]) then kept
  else if decide (portion = [dot; dot]) then
    match kept with
    | previous :: kept' =>
        if decide (previous = [dot; dot]) then portion :: kept else kept'
    | [] => if allowAboveRoot then [portion] else []
    end
  else portion :: kept.

(** Portions joined by slashes. *)
Fixpoint glue (portions : list (list ascii)) : list ascii :=
  match portions with
  | [] => []
  | [portion] => portion
  | portion :: portions' => portion ++ slash :: glue portions'
  end.

(** [path.normalize(p)] (POSIX). *)
Definition normalize (p : list ascii) : list ascii :=
  match p with
  | [] => [dot]
  | _ =>
      let isAbsolute := bool_decide (head p = Some slash) in
      let trailingSeparator := bool_decide (last p = Some slash) in
      let body := glue (reverse (foldl (step (negb isAbsolute)) [] (split p))) in
      match body with
      | [] => if isAbsolute then [slash]
              else if trailingSeparator then [dot; slash] else [dot]
      | _ => (if isAbsolute then [slash] else [])
             ++ body ++ (if trailingSeparator then [slash] else [])
      end
  end.

(** [path.join(a, b)] (POSIX): the arguments that are not empty, joined
    by a slash and normalized. *)
Definition join (a b : string) : string :=
  string_of_list_ascii
    (match list_ascii_of_string a, list_ascii_of_string b with
     | [], [] => [dot]
     | [], p | p, [] => normalize p
     | p, q => normalize (p ++ slash :: q)
     end).

End Path.

(** ** src/middleware/fileUpload.js: the file filters and the stored name;
    [getOfficeFileType] of the office converter *)
Module Filters.

Inductive kind := Office | Excel | CsvFile | JsonFile | Html | Markdown | Image.

Definition docx_type : string :=
  "application/vnd.openxmlformats-officedocument.wordprocessingml.document".
Definition xlsx_type : string :=
  "application/vnd.openxmlformats-officedocument.spreadsheetml.sheet".
Definition pptx_type : string :=
  "application/vnd.openxmlformats-officedocument.presentationml.presentation".

Definition allowedTypes (k : kind) : list string :=
  match k with
  | Office => [docx_type; xlsx_type; pptx_type; "application/msword";
               "application/vnd.ms-excel"; "application/vnd.ms-powerpoint"]
  | Excel => [xlsx_type; "application/vnd.ms-excel"]
  | CsvFile => ["text/csv"; "application/csv"]
  | JsonFile => ["application/json"]
  | Html => ["text/html"]
  | Markdown => ["text/markdown"; "text/x-markdown"]
  | Image => ["image/jpeg"; "image/png"; "image/tiff"; "image/bmp"; "image/webp"]
  end.

Definition allowedExtensions (k : kind) : list string :=
  match k with
  | Office => [".docx"; ".xlsx"; ".pptx"; ".doc"; ".xls"; ".ppt"]
  | Excel => [".xlsx"; ".xls"]
  | CsvFile => [".csv"]
  | JsonFile => [".json"]
  | Html => [".html"; ".htm"]
  | Markdown => [".md"; ".markdown"]
  | Image => [".jpg"; ".jpeg"; ".png"; ".tiff"; ".tif"; ".bmp"; ".webp"]
  end.

Definition rejection (k : kind) : string :=
  match k with
  | Office => "Invalid file type. Only Office documents are allowed."
  | Excel => "Invalid file type. Only Excel files are allowed."
  | CsvFile => "Invalid file type. Only CSV files are allowed."
  | JsonFile => "Invalid file type. Only JSON files are allowed."
  | Html => "Invalid file type. Only HTML files are allowed."
  | Markdown => "Invalid file type. Only Markdown files are allowed."
  | Image => "Invalid file type. Only image files are allowed (JPEG, PNG, TIFF, BMP, WebP)."
  end.

(** [fileFilters[kind](req, file, cb)]: [cb(null, true)] or
    [cb(new ValidationError(..))]. *)
Definition fileFilter (k : kind) (originalname mimetype : string)
  : Errors.error + unit :=
  let ext := Path.toLowerCase (Path.extname originalname) in
  if bool_decide (mimetype ∈ allowedTypes k)
     || bool_decide (ext ∈ allowedExtensions k)
  then inr ()
  else inl (Errors.ValidationError (rejection k)).

(** The [filename] of the disk storage:
    [uuidv4()-Date.now()path.extname(file.originalname)]. *)
Definition uniqueName (uuid : string) (now : Z) (originalname : string) : string :=
  uuid +:+ "-" +:+ Js.string_of_Z now +:+ Path.extname originalname.

(** [req.file] as the disk storage fills it in: the destination is the
    directory [ensureTempDir] returns, the name is [uniqueName], and the
    path is [path.join(destination, filename)]. *)
Definition stored (env : Env) (uuid : string) (now : Z)
    (originalname mimetype : string) (size : Z) : Upload.file :=
  {| Upload.originalname := originalname;
     Upload.filename := uniqueName uuid now originalname;
     Upload.path :=
       Path.join (Upload.tempDir env) (uniqueName uuid now originalname);
     Upload.mimetype := mimetype;
     Upload.size := size |}.

(** The table [mimeToExt] of [getOfficeFileType]. *)
Definition mimeToExt : list (string * string) :=
  [(docx_type, ".docx"); (xlsx_type, ".xlsx"); (pptx_type, ".pptx");
   ("application/msword", ".doc"); ("application/vnd.ms-excel", ".xls");
   ("application/vnd.ms-powerpoint", ".ppt")].

(** The names every object literal answers to besides its own keys: the
    members of [Object.prototype]. *)
Definition prototype_members : list string :=
  ["constructor"; "__defineGetter__"; "__defineSetter__"; "hasOwnProperty";
   "__lookupGetter__"; "__lookupSetter__"; "isPrototypeOf";
   "propertyIsEnumerable"; "toString"; "valueOf"; "__proto__";
   "toLocaleString"].

(** [mimeToExt[mimetype] || ext]: [inr] is the extension, a string; [inl]
    names the member of [Object.prototype] the lookup returns instead
    (truthy, so it is the result). *)
Definition getOfficeFileType (filename mimetype : string) : string + string :=
  let ext := Path.toLowerCase (Path.extname filename) in
  match List.find (fun kv => String.eqb mimetype (fst kv)) mimeToExt with
  | Some kv => inr (snd kv)
  | None =>
      if bool_decide (mimetype ∈ prototype_members) then inl mimetype
      else inr ext
  end.

End Filters.


(** ** src/app.js: the periodic sweep of the temporary directory *)
Module Sweep.

(** One name [fs.readdir] returns, with what the loop will meet on it:
    the modification time [fs.stat] reports ([None] when [stat] rejects)
    and whether [fs.unlink] goes through (it does not on a
    sub-directory, for one). *)
Record entry := {
  name : string;
  mtimeMs : option Z;
  removable : bool
}.

Definition maxAge : Z := 30 * 60 * 1000.

(** [console.log('Cleaned up old file: ..')] and the [console.error] of
    the [catch]. *)
Inductive log := Cleaned (file : string) | ErrorLogged.

(** The [for] loop of [cleanupTempFiles], inside its [try]: the entries
    left in the directory, in the order of [readdir], and what was
    written to the console. The first rejected call leaves the loop. *)
Fixpoint sweep (now : Z) (files : list entry) : list entry * list log :=
  match files with
  | [] => ([], [])
  | file :: rest =>
      match mtimeMs file with
      | None => (file :: rest, [ErrorLogged])
      | Some mtime =>
          if now - mtime >? maxAge then
            if removable file then
              let '(kept, logs) := sweep now rest in
              (kept, Cleaned (name file) :: logs)
            else (file :: rest, [ErrorLogged])
          else
            let '(kept, logs) := sweep now rest in
            (file :: kept, logs)
      end
  end.

(** [cleanupTempFiles]; [dir] is [None] when [readdir] rejects. *)
Definition cleanupTempFiles (now : Z) (dir : option (list entry))
  : option (list entry) * list log :=
  match dir with
  | None => (None, [ErrorLogged])
  | Some files => let '(kept, logs) := sweep now files in (Some kept, logs)
  end.

(** A file the loop would delete. *)
Definition old (now : Z) (file : entry) : Prop :=
  ∃ mtime, mtimeMs file = Some mtime ∧ maxAge < now - mtime.

(** A file the loop passes without a rejected call. *)
Definition passes (now : Z) (file : entry) : Prop :=
  ∃ mtime, mtimeMs file = Some mtime
           ∧ (maxAge < now - mtime → removable file = true).

#[global] Instance old_dec now file : Decision (old now file).
Proof.
  unfold old. destruct (mtimeMs file) as [mtime|].
  - destruct (decide (maxAge < now - mtime)).
    + left. eauto.
    + right. intros (m & [= <-] & ?). done.
  - right. intros (m & [=] & _).
Defined.

End Sweep.

(** ** The office converter: [convertOfficeToPDF] and
    [processOfficeConversion] *)
Module Office.
Import Upload.

(** What the converter relies on: [libre.convert] on the content read,
    the content of an existing path, the error a rejected [fs] call
    carries (by call and path), [path.join], and the text of a member of
    [Object.prototype] when it ends up in a header. *)
Record collaborators := {
  libreConvert : string -> Errors.error + string;
  readInput : string -> string;
  fs_rejection : string -> string -> Errors.error;
  join : string -> string -> string;
  member_text : string -> string
}.

(** [convertOfficeToPDF(inputPath, outputPath)]: the PDF written at
    [outputPath], or the [ConversionError] thrown. The temporary
    directory the upload was just stored in is taken to be writable. *)
Definition convertOfficeToPDF (c : collaborators) (inputPath outputPath : string)
    (w : fs) : fs * (Errors.error + string) :=
  let failed (error : Errors.error) :=
    Errors.ConversionError
      ("Failed to convert Office document to PDF: " +:+ Errors.message error) in
  if decide (inputPath ∈ files w) then
    match libreConvert c (readInput c inputPath) with
    | inr pdfBuffer =>
        ({| files := files w ∪ {[outputPath]}; denied := denied w |},
         inr pdfBuffer)
    | inl error => (w, inl (failed error))
    end
  else (w, inl (failed (fs_rejection c "readFile" inputPath))).

Record result := {
  filename : string;
  buffer : string;
  size : Z;
  originalName : string;
  convertedFrom : string + string
}.

Definition outputFilename (file : Upload.file) : string :=
  Path.stem (Upload.filename file) +:+ ".pdf".

Definition outputPath (c : collaborators) (env : Env) (file : Upload.file) : string :=
  join c (tempDir env) (outputFilename file).

(** [processOfficeConversion(file)]. After a conversion that went through,
    the PDF is read back, measured and unlinked; when anything rejects,
    the [catch] tries the unlink (ignoring its outcome) and rethrows. *)
Definition processOfficeConversion (c : collaborators) (env : Env)
    (file : Upload.file) (w : fs) : fs * (Errors.error + result) :=
  let out := outputPath c env file in
  match convertOfficeToPDF c (Upload.path file) out w with
  | (w1, inr pdfBuffer) =>
      match unlink out w1 with
      | Some w2 =>
          (w2, inr {| filename := outputFilename file;
                      buffer := pdfBuffer;
                      size := Z.of_nat (String.length pdfBuffer);
                      originalName := Upload.originalname file;
                      convertedFrom :=
                        Filters.getOfficeFileType (Upload.originalname file)
                          (Upload.mimetype file) |})
      | None => (w1, inl (fs_rejection c "unlink" out))
      end
  | (w1, inl error) => (default w1 (unlink out w1), inl error)
  end.

(** The fields of the result the route reads. *)
Definition to_route (c : collaborators) (r : result) : office_result :=
  {| o_filename := filename r; o_buffer := buffer r; o_size := size r;
     o_convertedFrom :=
       match convertedFrom r with
       | inr ext => ext
       | inl member => member_text c member
       end |}.

(** The services of the routes, with this office converter in place. *)
Definition with_office (c : collaborators) (env : Env) (sv : services) : services :=
  {| Upload.processOfficeConversion := fun file w =>
       let '(w', r) := processOfficeConversion c env file w in
       (w', on_result (to_route c) r);
     processExcelToCsv := processExcelToCsv sv;
     processCsvToExcel := processCsvToExcel sv;
     processExcelToJson := processExcelToJson sv;
     processJsonToExcel := processJsonToExcel sv;
     processHtmlToMarkdown := processHtmlToMarkdown sv;
     processMarkdownToHtml := processMarkdownToHtml sv;
     extractTextFromImage := extractTextFromImage sv;
     processOcrToFile := processOcrToFile sv |}.

End Office.

(** ** The OCR service: the cached worker and [extractTextFromImage] *)
Module Ocr.

Record item := { i_text : string; i_confidence : json; i_bbox : json }.

(** What [worker.recognize] resolves to, as far as it is read. *)
Record data := {
  text : string;
  confidence : json;
  words : list item;
  lines : list item;
  paragraphs : list item
}.

(** The OCR engine: the error [createWorker] rejects with, if it does;
    the error loading and initialising a language rejects with, if it
    does; and what recognising a file gives on a worker in a given
    condition, with the time it took. *)
Record engine := {
  creates : option Errors.error;
  loads : string -> option Errors.error;
  recognize : option string -> string -> Errors.error + (data * Z)
}.

(** The module variable [worker]: [None] for [null]; otherwise the worker,
    with the language it was last initialised with, if any. *)
Definition worker := option (option string).

(** [initializeWorker()] *)
Definition initializeWorker (e : engine) (w : worker)
  : worker * (Errors.error + option string) :=
  match w with
  | Some lang => (w, inr lang)
  | None =>
      match creates e with
      | Some error => (None, inl error)
      | None =>
          match loads e "eng" with
          | Some error => (Some None, inl error)
          | None => (Some (Some "eng"), inr (Some "eng"))
          end
      end
  end.

Definition item_json (i : item) : json :=
  JObject [("text", JString (i_text i)); ("confidence", i_confidence i);
           ("bbox", i_bbox i)].

(** The object returned: [{ success: true, originalFile, ...result }]. *)
Definition result_json (originalname language outputFormat : string)
    (d : data) (processingTime : Z) : json :=
  JObject (
    [("success", JBool true); ("originalFile", JString originalname);
     ("text", JString (text d)); ("confidence", confidence d)]
    ++ (if String.eqb outputFormat "json" then
          [("words", JArray (item_json <$> words d));
           ("lines", JArray (item_json <$> lines d));
           ("paragraphs", JArray (item_json <$> paragraphs d))]
        else [])
    ++ [("processingTime", JNumber processingTime);
        ("language", JString language)]).

Definition failed (error : Errors.error) : Errors.error :=
  Errors.ConversionError
    ("Failed to extract text from image: " +:+ Errors.message error).

(** [extractTextFromImage(file, { language, outputFormat })]: the worker
    afterwards and the result or the [ConversionError] thrown. *)
Definition extractTextFromImage (e : engine) (w : worker)
    (originalname path language outputFormat : string)
  : worker * (Errors.error + json) :=
  match initializeWorker e w with
  | (w1, inl error) => (w1, inl (failed error))
  | (w1, inr lang) =>
      let loaded :=
        if negb (String.eqb language "eng") then
          match loads e language with
          | Some error => inl error
          | None => inr (Some (Some language), Some language)
          end
        else inr (w1, lang) in
      match loaded with
      | inl error => (w1, inl (failed error))
      | inr (w2, lang2) =>
          match recognize e lang2 path with
          | inl error => (w2, inl (failed error))
          | inr (d, processingTime) =>
              (w2, inr (result_json originalname language outputFormat d
                          processingTime))
          end
      end
  end.

End Ocr.


(** ** More concrete inputs *)
Module Examples.

Definition comma : ascii := ascii_of_nat 44.

(** The cells [a,b], [0] and [say "hi"]. *)
Definition cells : list (@Csv.cell ascii) :=
  Csv.cell_of <$>
    [Csv.VString "a,b"; Csv.VNumber 0;
     Csv.VString ("say " +:+ String Csv.dquote ("hi" +:+ String Csv.dquote ""))].

Definition plain_fields : list (list ascii) :=
  Csv.units <$> ["John Doe"; "30"; "New York"].

Definition internal_error : Errors.error :=
  {| Errors.name := "TypeError"; Errors.message := "secret path /srv/app";
     Errors.code := None; Errors.err_status := None; Errors.details := None |}.

Definition internal_error' : Errors.error :=
  {| Errors.name := "TypeError"; Errors.message := "another message";
     Errors.code := None; Errors.err_status := None; Errors.details := None |}.

Definition production : Env := {[ "NODE_ENV" := "production" ]}.

(** Modified exactly thirty minutes before [2800001]. *)
Definition young : Sweep.entry :=
  {| Sweep.name := "a.docx"; Sweep.mtimeMs := Some 1000001;
     Sweep.removable := true |}.

(** Modified thirty minutes and one millisecond before [2800001]. *)
Definition aged : Sweep.entry :=
  {| Sweep.name := "b.docx"; Sweep.mtimeMs := Some 1000000;
     Sweep.removable := true |}.

Definition directory : Sweep.entry :=
  {| Sweep.name := "sub"; Sweep.mtimeMs := Some 0; Sweep.removable := false |}.

(** Collaborators of the office converter whose conversion goes through. *)
Definition office : Office.collaborators :=
  {| Office.libreConvert := fun content => inr ("%PDF" +:+ content);
     Office.readInput := fun _ => "docx";
     Office.fs_rejection := fun syscall p =>
       {| Errors.name := "Error"; Errors.message := syscall +:+ " " +:+ p;
          Errors.code := Some "ENOENT"; Errors.err_status := None;
          Errors.details := None |};
     Office.join := fun dir name => dir +:+ "/" +:+ name;
     Office.member_text := fun m => m |}.

Definition no_data : Ocr.data :=
  {| Ocr.text := "Bonjour"; Ocr.confidence := JNumber 90; Ocr.words := [];
     Ocr.lines := []; Ocr.paragraphs := [] |}.

(** An engine on which everything resolves. *)
Definition tesseract : Ocr.engine :=
  {| Ocr.creates := None; Ocr.loads := fun _ => None;
     Ocr.recognize := fun _ _ => inr (no_data, 120) |}.

(** An engine that cannot load [eng]. *)
Definition offline : Ocr.engine :=
  {| Ocr.creates := None;
     Ocr.loads := fun _ => Some Samples.econnrefused;
     Ocr.recognize := fun _ _ => inl Samples.econnrefused |}.

Definition no_upload : Upload.request :=
  {| Upload.req_file := None; Upload.req_body := ∅; Upload.req_query := ∅ |}.

(** The upload is there, and the PDF made from it cannot be unlinked. *)
(** A job that completed, with its three times, a job whose [timestamp]
    is one millisecond past the last time value a date holds, and a queue
    with both. *)
Definition finished_job : Queue.job :=
  {| Queue.id := "j7"; Queue.data := Samples.sample_data None;
     Queue.timestamp := 1700000000000;
     Queue.processedOn := Some 1700000002000;
     Queue.finishedOn := Some 1700000004500;
     Queue.progress := JNumber 100;
     Queue.returnvalue := JObject [("success", JBool true)];
     Queue.failedReason := JNull;
     Queue.attemptsMade := 1; Queue.state := "completed" |}.

Definition undated_job : Queue.job :=
  {| Queue.id := "j8"; Queue.data := Samples.sample_data None;
     Queue.timestamp := 8640000000000001;
     Queue.processedOn := None; Queue.finishedOn := None;
     Queue.progress := JNumber 0; Queue.returnvalue := JNull;
     Queue.failedReason := JNull;
     Queue.attemptsMade := 0; Queue.state := "waiting" |}.

Definition dated_queue : Queue.queue :=
  Samples.queue_of [("j7", finished_job); ("j8", undated_job)].

(** A temporary directory given relative to the working directory, an
    upload stored there, and the disk that holds it. *)
Definition relative_env : Env := {[ "TEMP_DIR" := "./uploads" ]}.

Definition relative_upload : Upload.file :=
  Filters.stored relative_env "3f2a" 1700000000000 "report.docx"
    "application/msword" 2048.

Definition relative_request : Upload.request :=
  {| Upload.req_file := Some relative_upload; Upload.req_body := ∅;
     Upload.req_query := ∅ |}.

Definition relative_disk : Upload.fs :=
  {| Upload.files := {[ "uploads/3f2a-1700000000000.docx" ]};
     Upload.denied := ∅ |}.

Definition locked_disk : Upload.fs :=
  {| Upload.files := {[ Upload.path Samples.uploaded ]};
     Upload.denied :=
       {[ "/tmp/document-processing/3f2a-1700000000000.pdf" ]} |}.

(** A file in a sibling of the temporary directory. *)
Definition sibling_disk : Upload.fs :=
  {| Upload.files := {[ "/tmp/document-processing-old/keep.txt" ]};
     Upload.denied := ∅ |}.

End Examples.


(** * Properties *)

(** ** The text of a date *)
Section DateText.
Import Date.

Lemma pad_app (c : ascii) (s rest : string) :
  String c s +:+ rest = String c (s +:+ rest).
Proof. reflexivity. Qed.

Lemma digit_char_code (d : Z) :
  0 <= d <= 9 → Z.of_nat (nat_of_ascii (digit_char d)) = 48 + d.
Proof.
  intros Hd. unfold digit_char.
  rewrite nat_ascii_embedding by lia. lia.
Qed.

(** Reading [k] digits of a number gives the number below [10^k]. *)
Lemma read_pad (k : nat) (n acc : Z) (rest : string) :
  0 <= n →
  read k (pad k n +:+ rest) acc
  = Some (acc * 10 ^ Z.of_nat k + n mod 10 ^ Z.of_nat k, rest).
Proof.
  intros Hn. revert acc. induction k as [|k IH]; intros acc.
  - cbn. by rewrite Z.mod_1_r, Z.mul_1_r, Z.add_0_r.
  - cbn [pad]. rewrite pad_app. cbn [read].
    set (p := 10 ^ Z.of_nat k).
    assert (Hp : 0 < p) by (unfold p; apply Z.pow_pos_nonneg; lia).
    assert (Hd : 0 <= n / p mod 10 <= 9).
    { pose proof (Z.mod_pos_bound (n / p) 10). lia. }
    rewrite digit_char_code by done.
    replace ((48 <=? 48 + n / p mod 10) && (48 + n / p mod 10 <=? 57))
      with true by (symmetry; apply andb_true_iff; split; lia).
    rewrite IH. fold p. f_equal. f_equal.
    rewrite Nat2Z.inj_succ, Z.pow_succ_r by lia. fold p.
    rewrite (Z.mul_comm 10 p), Z.rem_mul_r by lia. lia.
Qed.

Lemma read_pad_small (k : nat) (n : Z) (rest : string) :
  0 <= n < 10 ^ Z.of_nat k →
  read k (pad k n +:+ rest) 0 = Some (n, rest).
Proof.
  intros Hn. rewrite read_pad by lia. by rewrite Z.mod_small.
Qed.

Lemma upto_spec (n : nat) (i : Z) (f : Z -> bool) :
  upto n i f = true → ∀ x, i <= x < i + Z.of_nat n → f x = true.
Proof.
  revert i. induction n as [|n IH]; intros i H x Hx; [lia|].
  cbn [upto] in H. apply andb_true_iff in H as [H1 H2].
  destruct (decide (x = i)) as [->|]; [done|].
  apply (IH (i + 1)); [done|lia].
Qed.

(** Every day of the 400-year cycle passes the check. *)
Lemma cycle_all : upto (Z.to_nat 146097) 0 cycle_ok = true.
Proof. vm_compute. reflexivity. Qed.

Lemma cycle_day (doe : Z) : 0 <= doe < 146097 → cycle_ok doe = true.
Proof.
  intros Hd. apply (upto_spec _ _ _ cycle_all). rewrite Z2Nat.id; lia.
Qed.

(** [days] undoes [civil], and [civil] gives a month and a day in
    range. *)
Lemma days_civil (z y m d : Z) :
  civil z = (y, m, d) →
  days y m d = z ∧ 1 <= m <= 12 ∧ 1 <= d <= 31
  ∧ (z + 719468) / 146097 * 400 <= y <= (z + 719468) / 146097 * 400 + 400.
Proof.
  unfold civil.
  set (era := (z + 719468) / 146097). set (doe := (z + 719468) mod 146097).
  assert (Hdoe : 0 <= doe < 146097) by (apply Z.mod_pos_bound; lia).
  pose proof (cycle_day doe Hdoe) as Hc. unfold cycle_ok in Hc.
  set (yoe := (doe - doe / 1460 + doe / 36524 - doe / 146096) / 365) in *.
  set (doy := doe - (365 * yoe + yoe / 4 - yoe / 100)) in *.
  set (mp := (5 * doy + 2) / 153) in *.
  set (d0 := doy - (153 * mp + 2) / 5 + 1) in *.
  set (m0 := if mp <? 10 then mp + 3 else mp - 9) in *.
  repeat (apply andb_true_iff in Hc as [Hc ?]).
  intros [= <- <- <-].
  assert (Hz : z = era * 146097 + doe - 719468).
  { unfold era, doe. pose proof (Z.div_mod (z + 719468) 146097). lia. }
  split; [|split; [lia|split; [lia|]]].
  - unfold days.
    replace (if m0 <=? 2 then yoe + era * 400 + (if m0 <=? 2 then 1 else 0) - 1
             else yoe + era * 400 + (if m0 <=? 2 then 1 else 0))
      with (yoe + era * 400) by (destruct (m0 <=? 2); lia).
    rewrite Z.div_add, Z.mod_add by lia.
    rewrite Z.div_small, Z.mod_small by lia.
    rewrite Z.add_0_l. lia.
  - destruct (m0 <=? 2); lia.
Qed.

Lemma read_year_digit (c : ascii) (s : string) :
  48 <= Z.of_nat (nat_of_ascii c) <= 57 →
  read_year (String c s) = read 4 (String c s) 0.
Proof.
  intros H.
  destruct c as [[] [] [] [] [] [] [] []]; try reflexivity;
    vm_compute in H; destruct H as [H1 H2]; exfalso;
    first [ by apply H1 | by apply H2 ].
Qed.

Lemma read_year_text (y : Z) (rest : string) :
  -1000000 < y < 1000000 →
  read_year (year_text y rest) = Some (y, rest).
Proof.
  intros Hy. unfold year_text.
  destruct (Z.leb_spec 0 y) as [H0|H0]; cbn [andb].
  - destruct (Z.leb_spec y 9999) as [H1|H1].
    + cbn [pad]. rewrite pad_app, read_year_digit.
      * rewrite <- pad_app. apply (read_pad_small 4); cbn; lia.
      * rewrite digit_char_code; pose proof (Z.mod_pos_bound (y / 10 ^ Z.of_nat 3) 10); lia.
    + replace (y <? 0) with false by (symmetry; apply Z.ltb_ge; lia).
      cbn [read_year]. rewrite (read_pad_small 6) by (cbn; lia).
      cbn. f_equal. f_equal. lia.
  - replace (y <? 0) with true by (symmetry; apply Z.ltb_lt; lia).
    cbn [read_year]. rewrite (read_pad_small 6) by (cbn; lia).
    cbn. f_equal. f_equal. lia.
Qed.

(** Reading the text of a valid time value gives the time value back. *)
Lemma parse_toISOString (t : Z) :
  valid t = true → parse (toISOString t) = Some t.
Proof.
  intros Hv. unfold valid, max_time in Hv.
  apply andb_true_iff in Hv as [Hlo Hhi].
  apply Z.leb_le in Hlo, Hhi.
  unfold toISOString.
  destruct (civil (t / msPerDay)) as [[y m] d] eqn:Ec.
  apply days_civil in Ec as (Hdays & Hm & Hd & Hy).
  set (ms := t mod msPerDay).
  assert (Hms : 0 <= ms < 86400000) by (apply Z.mod_pos_bound; done).
  assert (Ht : t = t / msPerDay * msPerDay + ms).
  { unfold ms. pose proof (Z.div_mod t msPerDay). unfold msPerDay in *. lia. }
  assert (Hyr : -1000000 < y < 1000000).
  { unfold msPerDay in *.
    assert (-1000 < (t / 86400000 + 719468) / 146097 < 1000)
      by (clear Hy Hdays Ht; Z.div_mod_to_equations; lia).
    lia. }
  unfold parse. rewrite read_year_text by done.
  cbn -[read pad Z.mul Z.add Z.div Z.modulo days].
  rewrite (read_pad_small 2) by (cbn; lia).
  cbn -[read pad Z.mul Z.add Z.div Z.modulo days].
  rewrite (read_pad_small 2) by (cbn; lia).
  cbn -[read pad Z.mul Z.add Z.div Z.modulo days].
  rewrite (read_pad_small 2) by (cbn; Z.div_mod_to_equations; lia).
  cbn -[read pad Z.mul Z.add Z.div Z.modulo days].
  rewrite (read_pad_small 2) by (cbn; Z.div_mod_to_equations; lia).
  cbn -[read pad Z.mul Z.add Z.div Z.modulo days].
  rewrite (read_pad_small 2) by (cbn; Z.div_mod_to_equations; lia).
  cbn -[read pad Z.mul Z.add Z.div Z.modulo days].
  rewrite (read_pad_small 3) by (cbn; Z.div_mod_to_equations; lia).
  cbn -[read pad Z.mul Z.add Z.div Z.modulo Z.leb days].
  replace ((1 <=? m) && (m <=? 12) && (1 <=? d) && (d <=? 31)
           && (ms / 3600000 <=? 23) && (ms / 60000 mod 60 <=? 59)
           && (ms / 1000 mod 60 <=? 59)) with true.
  2: { symmetry. rewrite !andb_true_iff, !Z.leb_le.
       clear Ht Hdays Hy. repeat split; try lia;
         Z.div_mod_to_equations; lia. }
  f_equal. rewrite Hdays.
  transitivity (t / msPerDay * msPerDay + ms); [|by symmetry].
  clear Ht Hdays Hy. Z.div_mod_to_equations. lia.
Qed.

End DateText.

(** ** The job routes *)
Section JobRoutes.
Import Queue Jobs.

Variable env : Env.

Lemma eqb_state_spec (s t : string) :
  (String.eqb s t = true ∧ s = t) ∨ (String.eqb s t = false ∧ s ≠ t).
Proof.
  destruct (String.eqb_spec s t); [left | right]; done.
Qed.

(** The error handler answers a [JobNotFoundError] with status 404 and the
    code [JOB_NOT_FOUND]. *)
Lemma not_found_404 (jobId : string) :
  Errors.errorHandler env (not_found jobId) =
  json_response 404 (JObject [
    ("error", JString "Job not found");
    ("message", JString ("Job " +:+ jobId +:+ " not found"));
    ("code", JString "JOB_NOT_FOUND")]).
Proof. reflexivity. Qed.

(** The date of a status: [null] for a missing or zero time, otherwise a
    text that reads back as the time. *)
Lemma iso_or_null_reads (t : option Z) :
  renders t = true →
  match t with
  | Some ms =>
      if ms =? 0 then iso_or_null t = JNull
      else ∃ s, iso_or_null t = JString s ∧ Date.parse s = Some ms
  | None => iso_or_null t = JNull
  end.
Proof.
  destruct t as [ms|]; [|done]. cbn.
  destruct (ms =? 0); [done|]. cbn. intros Hv.
  eexists. split; [reflexivity|]. by apply parse_toISOString.
Qed.

Ltac stamp H :=
  revert H;
  lazymatch goal with
  | |- match ?o with _ => _ end -> _ =>
      let t := fresh "t" in
      destruct o as [t|]; [destruct (t =? 0)|]; intros H;
      [ exact (f_equal Some H)
      | let s := fresh "s" in
        let Hs := fresh "Hs" in
        let Hq := fresh "Hq" in
        destruct H as (s & Hs & Hq); exists s;
        split; [exact (f_equal Some Hs) | exact Hq]
      | exact (f_equal Some H) ]
  end.


(** C3. The download of an unknown job id is answered 404; of a known job
    whose state is not [completed], 400 with no result; of a completed job,
    200 with the job's result. *)
Theorem download_only_completed (q : queue) (jobId : string) :
  match jobs q !! jobId with
  | None =>
      ∃ r, serve env (Some (Up q)) (Download jobId) = Some (r, Some (Up q))
           ∧ status r = 404
           ∧ body_field "code" r = Some (JString "JOB_NOT_FOUND")
  | Some job =>
      ∃ r, serve env (Some (Up q)) (Download jobId) = Some (r, Some (Up q))
           ∧ if decide (state job = "completed")
             then status r = 200
                  ∧ body_field "result" r = Some (returnvalue job)
             else status r = 400
                  ∧ body_field "error" r = Some (JString "Job not ready")
                  ∧ body_field "result" r = None
  end.
Proof.
  unfold serve, perform, download_handler, getJob.
  destruct (jobs q !! jobId) as [job|] eqn:E.
  - destruct (eqb_state_spec (state job) "completed") as [[Hc Hs]|[Hc Hs]];
      rewrite Hc; eexists; (split; [reflexivity|]).
    + rewrite decide_True by done. split; reflexivity.
    + rewrite decide_False by done. repeat split; reflexivity.
  - eexists. split; [reflexivity|]. split; reflexivity.
Qed.

(** C2. Cancelling a job whose state is [completed] or [failed] is answered
    400 and leaves the store as it was; cancelling a [waiting] job is
    answered 200, removes the record, and a status query for the same id
    on the resulting store is answered 404. *)
Theorem cancel_terminal_or_waiting (q : queue) (jobId : string) (job : job)
    (Hjob : jobs q !! jobId = Some job) (Hid : id job = jobId) :
  (state job = "completed" ∨ state job = "failed" →
     ∃ r, serve env (Some (Up q)) (Cancel jobId) = Some (r, Some (Up q))
          ∧ status r = 400
          ∧ body_field "error" r = Some (JString "Cannot cancel job"))
  ∧ (state job = "waiting" →
     ∃ r q' r',
       serve env (Some (Up q)) (Cancel jobId) = Some (r, Some (Up q'))
       ∧ status r = 200
       ∧ body_field "success" r = Some (JBool true)
       ∧ jobs q' = delete jobId (jobs q)
       ∧ jobs q' !! jobId = None
       ∧ serve env (Some (Up q')) (Status jobId) = Some (r', Some (Up q'))
       ∧ status r' = 404).
Proof.
  unfold serve, perform, cancel_handler, status_handler, getJob, remove.
  rewrite Hjob. split.
  - intros [Hs|Hs]; rewrite Hs; eexists; (split; [reflexivity|]);
      split; reflexivity.
  - intros Hs. rewrite Hs. cbn.
    eexists _, {| jobs := delete (id job) (jobs q); opts := opts q;
                  odd_bounds := odd_bounds q |}, _.
    split; [reflexivity|]. split; [reflexivity|]. split; [reflexivity|].
    cbn. rewrite Hid, lookup_delete_eq.
    repeat split; reflexivity.
Qed.

End JobRoutes.

(** ** The guard on the queue handle *)
Section Guard.
Import Queue Jobs.

Variable env : Env.

(** Every answer of the error handler carries a [code]; the 503 of the
    guard does not. *)
Lemma errorHandler_code (e : Errors.error) :
  body_field "code" (Errors.errorHandler env e) ≠ None.
Proof.
  unfold Errors.errorHandler.
  repeat (match goal with |- context [if ?b then _ else _] => destruct b end;
          [done|]).
  done.
Qed.

(** The error handler answers 503 only for an error that asks for it. *)
Lemma errorHandler_503 (e : Errors.error) :
  status (Errors.errorHandler env e) = 503 → Errors.err_status e = Some 503.
Proof.
  unfold Errors.errorHandler.
  repeat (match goal with |- context [if ?b then _ else _] => destruct b end;
          [done|]).
  cbn. destruct (Errors.err_status e) as [s|]; [|done].
  destruct (Z.eqb_spec s 0); [done|]. by intros ->.
Qed.

(** An error of a listing with bounds that are not integers is an error
    of the library. *)
Lemma select_odd_error (q : queue) (st : string) (offset limit : Js.val)
    (e : Errors.error) :
  select_odd q st offset limit = inl e →
  ∃ s, odd_bounds q s offset limit = inl e.
Proof.
  unfold select_odd. destruct (String.eqb st "all"); [|eauto].
  unfold states. cbn.
  repeat (match goal with
          | |- context [odd_bounds q ?s offset limit] =>
              let H := fresh "H" in
              destruct (odd_bounds q s offset limit) eqn:H;
              [intros [= <-]; eauto|]
          end).
  done.
Qed.

(** The answer of a handler on a handle whose store answers. *)
Lemma up_answers (q : queue) (op : operation) :
  ∃ r jq', serve env (Some (Up q)) op = Some (r, jq')
    ∧ r ≠ unavailable
    ∧ (status r = 503 →
       ∃ s offset limit e, odd_bounds q s offset limit = inl e
                           ∧ Errors.err_status e = Some 503).
Proof.
  assert (Hcode : ∀ e (jq' : option handle),
    ∃ r jq'', Some (Errors.errorHandler env e, jq') = Some (r, jq'')
      ∧ r ≠ unavailable
      ∧ (status r = 503 → Errors.err_status e = Some 503)).
  { intros e jq'. eexists _, _. split; [reflexivity|]. split.
    - intros Hr. apply (errorHandler_code e). by rewrite Hr.
    - apply errorHandler_503. }
  assert (Hown : ∀ (r : response) (jq' : option handle),
    status r ≠ 503 →
    ∃ r' jq'', Some (r, jq') = Some (r', jq'')
      ∧ r' ≠ unavailable
      ∧ (status r' = 503 →
         ∃ s offset limit e, odd_bounds q s offset limit = inl e
                             ∧ Errors.err_status e = Some 503)).
  { intros r jq' Hr. exists r, jq'. split; [done|]. split; [|done].
    by intros ->. }
  assert (Hlocal : ∀ e (jq' : option handle), Errors.err_status e = None →
    ∃ r jq'', Some (Errors.errorHandler env e, jq') = Some (r, jq'')
      ∧ r ≠ unavailable
      ∧ (status r = 503 →
         ∃ s offset limit e, odd_bounds q s offset limit = inl e
                             ∧ Errors.err_status e = Some 503)).
  { intros e jq' He. destruct (Hcode e jq') as (r & jq'' & H1 & H2 & H3).
    exists r, jq''. split; [done|]. split; [done|].
    intros H. apply H3 in H. congruence. }
  unfold serve, perform. destruct op as [jobId|jobId|jobId|query].
  - unfold status_handler, getJob.
    destruct (jobs q !! jobId) as [job|]; [|by apply Hlocal].
    destruct (dated job); cbn [negb]; [|by apply Hlocal].
    by apply Hown.
  - unfold download_handler, getJob.
    destruct (jobs q !! jobId) as [job|]; [|by apply Hlocal].
    destruct (negb _); by apply Hown.
  - unfold cancel_handler, getJob, remove.
    destruct (jobs q !! jobId) as [job|]; [|by apply Hlocal].
    destruct (_ || _); [by apply Hown|].
    destruct (String.eqb (state job) "active"); [by apply Hlocal|].
    by apply Hown.
  - unfold list_handler.
    set (offset := query_num query "offset" 0).
    set (limit := query_num query "limit" 20).
    set (st := default "all" (query !! "state")).
    destruct (window offset limit) as [[start stop]|].
    + destruct (forallb _ _); [by apply Hown | by apply Hlocal].
    + destruct (select_odd q st offset limit) as [e|found] eqn:Hsel.
      * destruct (Hcode e (Some (Up q))) as (r & jq'' & H1 & H2 & H3).
        exists r, jq''. split; [done|]. split; [done|].
        intros H. apply H3 in H. apply select_odd_error in Hsel as [s Hs].
        by exists s, offset, limit, e.
      * destruct (forallb _ _); [by apply Hown | by apply Hlocal].
Qed.

(** On a handle whose store cannot be reached, every route passes the
    client's error to the error handler. *)
Lemma down_forwards (e : Errors.error) (op : operation) :
  serve env (Some (Down e)) op
  = Some (Errors.errorHandler env e, Some (Down e)).
Proof. destruct op; reflexivity. Qed.

(** C5, as the code has it. When [REDIS_URL] is unset or empty there is no
    handle, and each of status, download, cancel and list is answered at
    once with the same 503 response, whose text names the queue and the
    Redis connection; nothing is computed from the request and there is
    no handle afterwards either. Once there is a handle every operation
    is answered, and never with the response of the guard: on a store
    that answers, the status of the answer is 503 only when the queue
    library itself rejects a listing with an error that carries that
    status, and on a store that cannot be reached the client's error goes
    to the error handler. *)
Theorem no_queue_503 (redis : Errors.error + gmap string job) (bull : listing)
    (op : operation)
    (Hurl : env !! "REDIS_URL" = None ∨ env !! "REDIS_URL" = Some "") :
  jobQueue env redis bull = None
  ∧ serve env (jobQueue env redis bull) op = Some (unavailable, None)
  ∧ status unavailable = 503
  ∧ body_field "error" unavailable = Some (JString "Job queue not available")
  ∧ body_field "message" unavailable
      = Some (JString "Async processing requires Redis connection")
  ∧ (∀ h op', ∃ r jq', serve env (Some h) op' = Some (r, jq')
                       ∧ r ≠ unavailable)
  ∧ (∀ q op', ∃ r jq', serve env (Some (Up q)) op' = Some (r, jq')
       ∧ (status r = 503 →
          ∃ s offset limit e, odd_bounds q s offset limit = inl e
                              ∧ Errors.err_status e = Some 503))
  ∧ (∀ e op', serve env (Some (Down e)) op'
              = Some (Errors.errorHandler env e, Some (Down e))).
Proof.
  assert (Hq : jobQueue env redis bull = None).
  { unfold jobQueue. destruct Hurl as [-> | ->]; reflexivity. }
  rewrite Hq. split; [done|]. split.
  { destruct op; reflexivity. }
  split; [done|]. split; [done|]. split; [done|].
  split; [|split; [|apply down_forwards]].
  - intros [q|e] op'.
    + destruct (up_answers q op') as (r & jq' & H1 & H2 & _). eauto.
    + eexists _, _. split; [apply down_forwards|].
      intros Hr. apply (errorHandler_code e). by rewrite Hr.
  - intros q op'.
    destruct (up_answers q op') as (r & jq' & H1 & _ & H3). eauto.
Qed.

End Guard.

(** ** The listing *)
Section Listing.
Import Queue Jobs Samples.

#[local] Instance older_total : Total older.
Proof. intros a b. unfold older. lia. Qed.

#[local] Instance older_trans : Transitive older.
Proof. intros a b c. unfold older. lia. Qed.

Lemma in_state_sorted (q : queue) (s : string) :
  StronglySorted older (in_state q s).
Proof. unfold in_state. apply (StronglySorted_merge_sort older). Qed.

Lemma in_state_state (q : queue) (s : string) (j : job) :
  j ∈ in_state q s → state j = s.
Proof.
  unfold in_state. rewrite merge_sort_Permutation.
  rewrite list_elem_of_filter. tauto.
Qed.

(** A window of one state's listing is still oldest first. *)
Lemma getJobs_sorted (q : queue) (s : string) (start stop : Z) :
  StronglySorted older (getJobs q s start stop).
Proof.
  unfold getJobs.
  pose proof (in_state_sorted q s) as H.
  rewrite <- (take_drop (Z.to_nat start) (in_state q s)) in H.
  apply StronglySorted_app_1_r in H.
  rewrite <- (take_drop (Z.to_nat (stop - start + 1))
                (drop (Z.to_nat start) (in_state q s))) in H.
  by apply StronglySorted_app_1_l in H.
Qed.

Lemma getJobs_state (q : queue) (s : string) (start stop : Z) (j : job) :
  j ∈ getJobs q s start stop → state j = s.
Proof.
  unfold getJobs. intros H.
  apply (in_state_state q). eapply subseteq_drop, subseteq_take, H.
Qed.

Lemma getJobs_length (q : queue) (s : string) (start stop : Z) :
  (length (getJobs q s start stop) ≤ Z.to_nat (stop - start + 1))%nat.
Proof. unfold getJobs. rewrite length_take. lia. Qed.

(** For ['all'] the loop concatenates one window per state. *)
Lemma select_all (q : queue) (start stop : Z) :
  select_jobs q "all" start stop =
    getJobs q "waiting" start stop ++ getJobs q "active" start stop
    ++ getJobs q "completed" start stop ++ getJobs q "failed" start stop
    ++ getJobs q "delayed" start stop.
Proof. unfold select_jobs; cbn. by rewrite <- !app_assoc. Qed.

(** With both parameters taken from their numeric defaults, or more
    generally given as safe integers with a safe sum, the bounds are
    [offset] and [offset + limit - 1]. *)
Lemma window_numbers (offset limit : Z) :
  Js.safe offset = true → Js.safe limit = true →
  Js.safe (offset + limit) = true →
  window (Js.VNum (Js.Num offset)) (Js.VNum (Js.Num limit))
  = Some (offset, offset + limit - 1).
Proof.
  intros Ho Hl Hs. unfold window. cbn [Js.toNumber Js.add].
  rewrite Ho, Hl. cbn. unfold Js.of_Z. rewrite Hs. cbn.
  unfold Js.sub_lit. cbn. by rewrite Hs.
Qed.

(** Without [offset] and [limit] in the query, a listing of all states is
    the concatenation of the first 20 jobs of each state, so at most 100
    jobs, and [total] counts them. *)
Lemma list_defaults (q : queue) :
  forallb (fun job => Date.valid (timestamp job)) (select_jobs q "all" 0 19)
    = true →
  ∃ r, list_handler (Some (Up q)) ∅ = Responded r
       ∧ status r = 200
       ∧ body_field "jobs" r
           = Some (JArray (job_summary <$> select_jobs q "all" 0 19))
       ∧ body_field "total" r
           = Some (JNumber (Z.of_nat (length (select_jobs q "all" 0 19))))
       ∧ body_field "limit" r = Some (JNumber 20)
       ∧ body_field "offset" r = Some (JNumber 0)
       ∧ (length (select_jobs q "all" 0 19) ≤ 100)%nat.
Proof.
  intros Hv. unfold list_handler.
  change (window _ _) with (Some (0, 19)). cbn [default].
  change (default "all" (∅ !! "state")) with "all".
  rewrite Hv.
  eexists. split; [reflexivity|]. repeat split.
  rewrite select_all, !length_app.
  pose proof (getJobs_length q "waiting" 0 19).
  pose proof (getJobs_length q "active" 0 19).
  pose proof (getJobs_length q "completed" 0 19).
  pose proof (getJobs_length q "failed" 0 19).
  pose proof (getJobs_length q "delayed" 0 19).
  lia.
Qed.

(** C4, at [GET /?offset=1&limit=2] over twelve waiting jobs. The two
    parameters arrive as strings, [offset + limit] is the string ["12"],
    and the window handed to the store is [1..11] instead of [1..2]: the
    answer lists eleven waiting jobs, more than [limit] for one state and
    more than [5 * limit] in all, while reporting [limit = 2]. *)
Theorem list_window_joins_strings :
  window (Js.VStr "1") (Js.VStr "2") = Some (1, 11)
  ∧ ∃ r, list_handler (Some (Up twelve_waiting)) {[ "offset" := "1"; "limit" := "2" ]}
           = Responded r
         ∧ body_field "limit" r = Some (JNumber 2)
         ∧ body_field "offset" r = Some (JNumber 1)
         ∧ body_field "total" r = Some (JNumber 11)
         ∧ id <$> select_jobs twelve_waiting "all" 1 11
           = ["j1"; "j2"; "j3"; "j4"; "j5"; "j6"; "j7"; "j8"; "j9"; "j10"; "j11"].
Proof.
  split; [reflexivity|].
  eexists. split; [vm_compute; reflexivity|].
  repeat split; vm_compute; reflexivity.
Qed.

End Listing.

(** ** Retries *)
Section Retries.
Import Queue Retry.

(** [parseInt(..) || 3] is never [NaN] and never 0. *)
Lemma attempts_num (env : Env) :
  attempts env ≠ Js.NaN ∧ attempts env ≠ Js.Num 0.
Proof.
  unfold attempts, Js.or_num.
  destruct (Js.parseInt _) as [z| |z] eqn:E; cbn; [|done..].
  destruct (Z.eqb_spec z 0) as [->|Hz]; cbn; [done|].
  split; [done|]. by intros [= ->].
Qed.

Lemma attempts_default (env : Env) :
  env !! "JOB_ATTEMPTS" = None → attempts env = Js.Num 3.
Proof. unfold attempts. intros ->. reflexivity. Qed.

(** The options of the handle always carry an exponential backoff of
    2000 ms, and the attempts read from the environment. *)
Lemma policy_configured (env : Env) (p : policy) :
  policy_of (defaultJobOptions env) = Some p →
  base p = 2000 ∧ attempts env = Js.Num (maxAttempts p).
Proof.
  unfold policy_of, defaultJobOptions. cbn.
  destruct (attempts env) as [m| |z]; cbn; [|done..].
  intros [= <-]. done.
Qed.

(** One failed attempt. *)
Lemma on_failure_step (p : policy) (now : Z) (reason : string) (a : job) :
  let '(j', d) := on_failure p now reason a in
  attemptsMade j' = attemptsMade a + 1
  ∧ if decide (attemptsMade j' < maxAttempts p)
    then state j' = "delayed" ∧ d = Some (base p * 2 ^ (attemptsMade j' - 1))
         ∧ failedReason j' = failedReason a
    else state j' = "failed" ∧ d = None
         ∧ failedReason j' = JString reason ∧ finishedOn j' = Some now.
Proof.
  unfold on_failure.
  destruct (Z.ltb_spec (attemptsMade a + 1) (maxAttempts p)); cbn.
  - rewrite decide_True by done. done.
  - rewrite decide_False by lia. done.
Qed.

Lemma backoff_increasing (p : policy) (n : Z) :
  0 < base p → 1 <= n → backoff p n < backoff p (n + 1).
Proof.
  intros Hb Hn. unfold backoff.
  replace (n + 1 - 1) with (Z.succ (n - 1)) by lia.
  rewrite Z.pow_succ_r by lia.
  assert (0 < 2 ^ (n - 1)) by (apply Z.pow_pos_nonneg; lia).
  nia.
Qed.

(** A job that keeps failing, from [a] attempts on: it is delayed after
    each failure but the last, which makes it [failed]. *)
Lemma execute_failures (p : policy) (now : Z) (reasons : list string) :
  ∀ (j : job) (a : Z),
    terminal j = false →
    attemptsMade j = a →
    a < maxAttempts p →
    length reasons = Z.to_nat (maxAttempts p - a) →
    ∃ jf r,
      execute p now (inl <$> reasons) j
        = (jf, backoff p <$> seqZ (a + 1) (maxAttempts p - 1 - a))
      ∧ state jf = "failed"
      ∧ attemptsMade jf = maxAttempts p
      ∧ last reasons = Some r
      ∧ failedReason jf = JString r
      ∧ finishedOn jf = Some now.
Proof.
  induction reasons as [|r rs IH]; intros j a Ht Ha Hlt Hlen.
  - cbn in Hlen. lia.
  - cbn [fmap list_fmap execute]. rewrite Ht.
    unfold on_failure. cbn [attemptsMade claim]. rewrite Ha.
    destruct (Z.ltb_spec (a + 1) (maxAttempts p)) as [Hlt'|Hge].
    + match goal with |- context [execute p now _ ?j'] =>
        destruct (IH j' (a + 1)) as (jf & r' & He & Hs & Hm & Hl & Hr & Hf)
      end; [reflexivity | reflexivity | lia | cbn in Hlen; lia |].
      unfold fmap in He. unfold fmap. rewrite He.
      exists jf, r'. split.
      { f_equal. rewrite (seqZ_cons (a + 1)) by lia. cbn.
        do 2 f_equal. f_equal; lia. }
      repeat split; try done.
      destruct rs; [cbn in Hl; done | exact Hl].
    + assert (a + 1 = maxAttempts p) as Heq by lia.
      assert (rs = []) as ->.
      { destruct rs; [done | cbn in Hlen; lia]. }
      eexists _, r. split.
      { replace (maxAttempts p - 1 - a) with 0 by lia. reflexivity. }
      cbn. repeat split; done.
Qed.

(** C1. Under the options the handle is created with, the base delay is
    2000 ms and the number of attempts is 3 unless [JOB_ATTEMPTS] says
    otherwise; a job whose every attempt fails waits
    [base * 2^(n-1)] after its [n]-th failure, each delay longer than the
    one before, is attempted [maxAttempts] times in all, and on the last
    failure becomes [failed] with the reason of that failure recorded. *)
Theorem retry_until_max_attempts (env : Env) (p : policy) (now : Z)
    (reasons : list string) (j : job)
    (Hp : policy_of (defaultJobOptions env) = Some p)
    (Hmax : 1 <= maxAttempts p)
    (Hst : state j = "waiting")
    (Hn : attemptsMade j = 0)
    (Hlen : length reasons = Z.to_nat (maxAttempts p)) :
  base p = 2000
  ∧ (env !! "JOB_ATTEMPTS" = None → maxAttempts p = 3)
  ∧ (∀ n, 1 <= n → backoff p n = 2000 * 2 ^ (n - 1)
                   ∧ backoff p n < backoff p (n + 1))
  ∧ ∃ jf r,
      execute p now (inl <$> reasons) j
        = (jf, backoff p <$> seqZ 1 (maxAttempts p - 1))
      ∧ state jf = "failed"
      ∧ attemptsMade jf = maxAttempts p
      ∧ last reasons = Some r
      ∧ failedReason jf = JString r
      ∧ finishedOn jf = Some now.
Proof.
  destruct (policy_configured env p Hp) as [Hb Ha].
  split; [done|]. split.
  { intros He. rewrite (attempts_default env He) in Ha. by injection Ha. }
  split.
  { intros n Hn1. split.
    - unfold backoff. by rewrite Hb.
    - apply backoff_increasing; lia. }
  destruct (execute_failures p now reasons j 0) as (jf & r & He & H);
    [ unfold terminal; by rewrite Hst | done | lia
    | by rewrite Z.sub_0_r | ].
  exists jf, r. split; [|done].
  rewrite He, Z.sub_0_r. reflexivity.
Qed.

End Retries.

(** ** Claims *)
Section Claims.
Import Queue Claim.

Lemma oldest_elem (l : list (string * job)) (x : string * job) :
  oldest l = Some x → x ∈ l.
Proof.
  revert x. induction l as [|y l IH]; intros x; cbn; [done|].
  destruct (oldest l) as [z|].
  - destruct (_ <=? _); intros [= <-].
    + left.
    + right. by apply IH.
  - intros [= <-]. left.
Qed.

Lemma oldest_is_Some (l : list (string * job)) :
  l ≠ [] → is_Some (oldest l).
Proof.
  destruct l as [|y l]; [done|]. intros _. cbn.
  destruct (oldest l); [destruct (_ <=? _)|]; eauto.
Qed.

(** The record picked is the oldest of the list. *)
Lemma oldest_least (l : list (string * job)) (x y : string * job) :
  oldest l = Some x → y ∈ l → timestamp x.2 <= timestamp y.2.
Proof.
  revert x. induction l as [|z l IH]; intros x; cbn; [done|].
  intros Ho Hy.
  destruct (oldest l) as [m|] eqn:Em.
  - destruct (Z.leb_spec (timestamp z.2) (timestamp m.2)); injection Ho as <-.
    + apply elem_of_cons in Hy as [->|Hy]; [lia|].
      specialize (IH m eq_refl Hy). lia.
    + apply elem_of_cons in Hy as [->|Hy]; [lia|].
      by apply IH.
  - injection Ho as <-.
    apply elem_of_cons in Hy as [->|Hy]; [lia|].
    destruct l; [by apply elem_of_nil in Hy | cbn in Em].
    destruct (oldest l); [destruct (_ <=? _)|]; done.
Qed.

Lemma eligible_not_active (now : Z) (s : store) (k : string) (j : job) :
  eligible now s (k, j) → state j ≠ "active".
Proof. intros [H|[H _]]; cbn in H; rewrite H; done. Qed.

(** What one successful call did. *)
Lemma claimNext_Some (now : Z) (w : string) (s s' : store) (k : string) (a : job) :
  claimNext now w s = (Some (k, a), s') →
  ∃ j, records s !! k = Some j
       ∧ eligible now s (k, j)
       ∧ a = Retry.claim now j
       ∧ s' = {| records := <[k := a]> (records s);
                 due := delete k (due s);
                 holder := <[k := w]> (holder s) |}.
Proof.
  unfold claimNext.
  destruct (oldest _) as [[k' j]|] eqn:Eo; [|done].
  intros [= <- <- <-].
  apply oldest_elem, list_elem_of_filter in Eo as [He Hin].
  apply elem_of_map_to_list in Hin.
  exists j. done.
Qed.

(** A call finds a job as soon as one is waiting. *)
Lemma claimNext_waiting (now : Z) (w : string) (s : store) :
  (0 < waiting_count s)%nat →
  ∃ k a s', claimNext now w s = (Some (k, a), s').
Proof.
  unfold waiting_count. intros Hc.
  destruct (map_size_ne_0_lookup_1 (filter waiting (records s))) as [k [j Hj]];
    [lia|].
  apply map_lookup_filter_Some in Hj as [Hj Hw].
  unfold claimNext.
  destruct (oldest_is_Some (filter (eligible now s) (map_to_list (records s))))
    as [[k' j'] ->]; [|eauto].
  intros Hnil.
  assert ((k, j) ∈ filter (eligible now s) (map_to_list (records s))) as Hin.
  { apply list_elem_of_filter. split; [by left|].
    by apply elem_of_map_to_list. }
  rewrite Hnil in Hin. by apply elem_of_nil in Hin.
Qed.

(** A call takes at most one job out of the waiting ones. *)
Lemma claimNext_count (now : Z) (w : string) (s s' : store) r :
  claimNext now w s = (r, s') →
  (waiting_count s - 1 ≤ waiting_count s')%nat.
Proof.
  destruct r as [[k a]|].
  - intros H. apply claimNext_Some in H as (j & Hj & He & -> & ->).
    unfold waiting_count; cbn.
    rewrite map_filter_insert_False by (unfold waiting; cbn; done).
    rewrite map_filter_delete, map_size_delete.
    destruct (filter waiting (records s) !! k); cbn; lia.
  - unfold claimNext. destruct (oldest _) as [[k j]|]; [done|].
    intros [= <-]. lia.
Qed.

Lemma claimed_elem (rs : list (string * option (string * job))) (k : string) :
  k ∈ claimed rs ↔ ∃ w a, (w, Some (k, a)) ∈ rs.
Proof.
  unfold claimed. rewrite list_elem_of_omap. split.
  - intros [x [Hin Hk]]. destruct x as [w [[k' a]|]]; cbn in Hk; [|done].
    injection Hk as ->. eauto.
  - intros (w & a & Hin). exists (w, Some (k, a)). done.
Qed.

Lemma claimed_cons (w k : string) (a : job) rs :
  claimed ((w, Some (k, a)) :: rs) = k :: claimed rs.
Proof. reflexivity. Qed.

(** Calls applied one after the other, with enough waiting jobs for all:
    what they return and what the store looks like afterwards. *)
Lemma claimAll_spec (now : Z) (workers : list string) :
  ∀ s : store,
    (length workers ≤ waiting_count s)%nat →
    ∃ rs s',
      claimAll now workers s = (rs, s')
      ∧ rs.*1 = workers
      ∧ length (claimed rs) = length workers
      ∧ NoDup (claimed rs)
      ∧ (∀ w k a, (w, Some (k, a)) ∈ rs →
           (∃ j, records s !! k = Some j ∧ eligible now s (k, j)
                 ∧ a = Retry.claim now j)
           ∧ records s' !! k = Some a
           ∧ holder s' !! k = Some w)
      ∧ (∀ k, k ∉ claimed rs →
           records s' !! k = records s !! k
           ∧ holder s' !! k = holder s !! k
           ∧ due s' !! k = due s !! k).
Proof.
  induction workers as [|w ws IH]; intros s Hc.
  - exists [], s. cbn.
    split; [done|]. split; [done|]. split; [done|]. split; [constructor|].
    split; [|done]. intros w k a H. by apply elem_of_nil in H.
  - cbn in Hc.
    destruct (claimNext_waiting now w s) as (k0 & a0 & s1 & H1); [lia|].
    pose proof (claimNext_count _ _ _ _ _ H1) as Hc1.
    destruct (IH s1) as (rs & s2 & H2 & Hw & Hl & Hnd & Hrs & Hfr); [lia|].
    apply claimNext_Some in H1 as Hs1.
    destruct Hs1 as (j0 & Hj0 & He0 & Ha0 & Hs1).
    assert (records s1 !! k0 = Some a0) as Hr1.
    { rewrite Hs1; cbn. apply lookup_insert_eq. }
    assert (state a0 = "active") as Hact by (by rewrite Ha0).
    assert (k0 ∉ claimed rs) as Hk0.
    { intros (w' & a' & Hin)%claimed_elem.
      destruct (Hrs _ _ _ Hin) as [(j & Hj & He & _) _].
      rewrite Hr1 in Hj. injection Hj as <-.
      by apply eligible_not_active in He. }
    exists ((w, Some (k0, a0)) :: rs), s2.
    cbn [claimAll]. rewrite H1, H2.
    rewrite claimed_cons.
    split; [done|]. split; [cbn; by rewrite Hw|].
    split; [cbn; by rewrite Hl|].
    split; [by apply NoDup_cons|].
    split.
    + intros w' k a [[= -> -> ->]|Hin]%elem_of_cons.
      * destruct (Hfr k0 Hk0) as (Hr & Hh & _).
        split; [eauto|]. split; [by rewrite Hr|].
        rewrite Hh, Hs1; cbn. apply lookup_insert_eq.
      * destruct (Hrs _ _ _ Hin) as [(j & Hj & He & Ha) Hrest].
        split; [|done].
        assert (k ≠ k0) as Hne.
        { intros ->. rewrite Hr1 in Hj. injection Hj as <-.
          by apply eligible_not_active in He. }
        exists j. rewrite Hs1 in Hj, He; cbn in Hj.
        rewrite lookup_insert_ne in Hj by done.
        split; [done|]. split; [|done].
        destruct He as [He|[He (t & Ht & Hle)]]; [by left|right].
        split; [done|]. exists t. cbn in Ht.
        rewrite lookup_delete_ne in Ht by done. done.
    + intros k [Hne Hk]%not_elem_of_cons.
      destruct (Hfr k Hk) as (Hr & Hh & Hd).
      rewrite Hr, Hh, Hd, Hs1; cbn.
      rewrite !lookup_insert_ne, lookup_delete_ne by done. done.
Qed.

(** C9. Whatever the order in which the calls of [N] workers take effect,
    if at least [N] jobs are waiting then every call returns a job, the
    jobs returned are pairwise distinct, each was eligible before and was
    made [active] by its call, and afterwards it is held by the worker the
    call belongs to and by no other. *)
Theorem claimNext_no_duplicate (now : Z) (workers : list string) (s : store)
    (Hm : (length workers ≤ waiting_count s)%nat) :
  ∃ rs s',
    claimAll now workers s = (rs, s')
    ∧ rs.*1 = workers
    ∧ length (claimed rs) = length workers
    ∧ NoDup (claimed rs)
    ∧ ∀ w k a, (w, Some (k, a)) ∈ rs →
        (∃ j, records s !! k = Some j ∧ eligible now s (k, j)
              ∧ a = Retry.claim now j)
        ∧ state a = "active"
        ∧ records s' !! k = Some a
        ∧ holder s' !! k = Some w
        ∧ ∀ w' a', (w', Some (k, a')) ∈ rs → w' = w.
Proof.
  destruct (claimAll_spec now workers s Hm)
    as (rs & s' & Hc & Hw & Hl & Hnd & Hrs & _).
  exists rs, s'. repeat split; try done.
  - destruct (Hrs _ _ _ H) as [H1 _]. done.
  - destruct (Hrs _ _ _ H) as [(j & _ & _ & ->) _]. done.
  - destruct (Hrs _ _ _ H) as (_ & H2 & _). done.
  - destruct (Hrs _ _ _ H) as (_ & _ & H3). done.
  - intros w' a' H'.
    destruct (Hrs _ _ _ H) as (_ & _ & H3).
    destruct (Hrs _ _ _ H') as (_ & _ & H3').
    congruence.
Qed.

End Claims.

(** ** Clean-up of the uploaded file *)
Section Cleanup.
Import Upload.

Variable env : Env.

Lemma tempDir_truthy : Js.truthy_str (tempDir env) = true.
Proof.
  unfold tempDir, Js.or_str.
  destruct (env !! "TEMP_DIR") as [s|]; [|reflexivity].
  destruct (Js.truthy_str s) eqn:E; [done | reflexivity].
Qed.

(** A path that starts with the temporary directory is not empty. *)
Lemma prefix_tempDir_truthy (p : string) :
  String.prefix (tempDir env) p = true → Js.truthy_str p = true.
Proof.
  pose proof tempDir_truthy as Ht.
  destruct (tempDir env); [done|]. destruct p; done.
Qed.

(** [cleanupFile] outside the temporary directory does nothing. *)
Lemma cleanupFile_outside (p : string) (w : fs) :
  String.prefix (tempDir env) p = false → cleanupFile env p w = ([], w).
Proof.
  unfold cleanupFile. intros ->. by rewrite andb_false_r.
Qed.

(** [cleanupFile] inside it tries to unlink the path once; a failure is
    logged, not raised. *)
Lemma cleanupFile_inside (p : string) (w : fs) :
  String.prefix (tempDir env) p = true →
  (p ∈ files w ∧ (p ∉ denied w)
   ∧ cleanupFile env p w
     = ([Unlink p true], {| files := files w ∖ {[p]}; denied := denied w |}))
  ∨ (¬ (p ∈ files w ∧ p ∉ denied w)
     ∧ cleanupFile env p w = ([Unlink p false; ConsoleError], w)).
Proof.
  intros Hp. unfold cleanupFile, unlink.
  rewrite Hp, (prefix_tempDir_truthy p Hp). cbn.
  destruct (decide (p ∈ files w ∧ p ∉ denied w)) as [[H1 H2]|Hn];
    [left | right]; done.
Qed.

Lemma handler_with_file (sv : services) (ep : endpoint) (req : request)
    (f : file) (w : fs) :
  req_file req = Some f →
  handler env sv ep req w =
    (Answer (match (work sv ep req f w).2 with
             | inl e => Next e
             | inr resp => Responded resp
             end)
       :: (cleanupFile env (path f) (work sv ep req f w).1).1,
     (cleanupFile env (path f) (work sv ep req f w).1).2).
Proof.
  unfold handler. intros ->.
  destruct (work sv ep req f w) as [w1 r]. cbn.
  destruct (cleanupFile env (path f) w1). reflexivity.
Qed.

(** For each of the nine conversion and OCR routes and a request that
    carries a file: the first thing the handler does is answer, with the
    converter's result or with its error; what follows is the clean-up of
    the uploaded path and nothing else. An unlink is tried only when the
    path starts with the text of the temporary directory, and then the
    file is gone afterwards unless the unlink was refused; whether it
    succeeds or fails, the answer is the one already given and no other
    file is touched. *)
Lemma cleanup_after_answer (sv : services) (ep : endpoint)
    (req : request) (f : file) (w : fs)
    (Hf : req_file req = Some f) :
  ∃ w1 r evs w2,
    work sv ep req f w = (w1, r)
    ∧ handler env sv ep req w
      = (Answer (match r with inl e => Next e | inr resp => Responded resp end)
           :: evs, w2)
    ∧ (∀ e, e ∈ evs → e = ConsoleError ∨ ∃ ok, e = Unlink (path f) ok)
    ∧ (String.prefix (tempDir env) (path f) = false → evs = [] ∧ w2 = w1)
    ∧ (String.prefix (tempDir env) (path f) = true →
         (∃ ok, head evs = Some (Unlink (path f) ok))
         ∧ (path f ∉ denied w1 → path f ∉ files w2))
    ∧ (∀ p, p ≠ path f → p ∈ files w2 ↔ p ∈ files w1).
Proof.
  rewrite (handler_with_file sv ep req f w Hf).
  destruct (work sv ep req f w) as [w1 r]. cbn [fst snd].
  exists w1, r.
  destruct (String.prefix (tempDir env) (path f)) eqn:Hp.
  - destruct (cleanupFile_inside (path f) w1 Hp)
      as [(Hin & Hd & ->) | (Hn & ->)]; cbn [fst snd].
    + eexists _, _. split; [done|]. split; [done|].
      split. { intros e ->%list_elem_of_singleton. right. eauto. }
      split; [done|]. split.
      * intros _. split; [eauto|]. cbn.
        rewrite elem_of_difference, elem_of_singleton. tauto.
      * intros p Hne. cbn.
        rewrite elem_of_difference, elem_of_singleton. tauto.
    + eexists _, _. split; [done|]. split; [done|].
      split.
      { intros e He. apply elem_of_cons in He as [->|He]; [eauto|].
        apply list_elem_of_singleton in He as ->. eauto. }
      split; [done|]. split; [|done].
      intros _. split; [eauto|]. intros Hd Hin. by apply Hn.
  - rewrite (cleanupFile_outside (path f) w1 Hp). cbn [fst snd].
    eexists _, _. split; [done|]. split; [done|].
    split. { intros e He. by apply elem_of_nil in He. }
    split; [done|]. split; [done|]. done.
Qed.

End Cleanup.

(** ** Enqueueing and the worker *)
Section Enqueue.
Import Queue Jobs Samples.

(** No handler adds or alters a record: whatever is in the store afterwards
    was there before. *)
Lemma perform_creates_nothing (q : queue) (op : operation) :
  ∃ q', (perform (Some (Up q)) op).2 = Some (Up q') ∧ opts q' = opts q
        ∧ ∀ k j, jobs q' !! k = Some j → jobs q !! k = Some j.
Proof.
  destruct op as [jobId|jobId|jobId|query]; cbn; [eauto..| |eauto].
  unfold cancel_handler, getJob, remove.
  destruct (jobs q !! jobId) as [job|]; [|cbn; eauto].
  destruct (_ || _); [cbn; eauto|].
  destruct (String.eqb (state job) "active"); cbn; [eauto|].
  eexists. split; [reflexivity|]. split; [done|].
  intros k j H. cbn in H. by apply lookup_delete_Some in H as [_ H].
Qed.

Lemma perform_keeps_none_or_down (jq : option handle) (op : operation) :
  (∀ q, jq ≠ Some (Up q)) → (perform jq op).2 = jq.
Proof.
  intros Hup. destruct jq as [[q|e]|]; [by destruct (Hup q)| |];
    destruct op; reflexivity.
Qed.

(** The callback succeeds for any job that carries a file, whatever its
    type. *)
Lemma processor_any_type (j : job) (f : file) :
  data_file (data j) = Some f →
  ∃ v, Worker.processor j = (2000, inr v)
       ∧ json_field "success" v = Some (JBool true).
Proof. unfold Worker.processor. intros ->. eauto. Qed.

(** C7, as the code has it. The job routes offer no enqueue operation and
    check no conversion type: a POST matches no route and leaves the handle
    as it is; no request to the job routes, whatever it asks for, creates
    or alters a record; and the worker callback succeeds for a job of any
    type that carries a file. *)
Theorem job_routes_create_nothing (jq : option handle) (req : request) :
  (meth req = POST → router jq req = (NoRoute, jq))
  ∧ match jq with
    | Some (Up q) =>
        ∃ q', (router jq req).2 = Some (Up q') ∧ opts q' = opts q
              ∧ ∀ k j, jobs q' !! k = Some j → jobs q !! k = Some j
    | _ => (router jq req).2 = jq
    end
  ∧ ∀ (j : job) (f : file), data_file (data j) = Some f →
      ∃ v, Worker.processor j = (2000, inr v)
           ∧ json_field "success" v = Some (JBool true).
Proof.
  split; [|split; [|apply processor_any_type]].
  - intros Hm. unfold router, route. by rewrite Hm.
  - unfold router.
    destruct (route req) as [op|].
    + destruct jq as [[q|e]|].
      * apply perform_creates_nothing.
      * by apply perform_keeps_none_or_down.
      * by apply perform_keeps_none_or_down.
    + destruct jq as [[q|e]|]; cbn; eauto.
Qed.

(** The options of the handle do not depend on [JOB_TIMEOUT]. *)
Lemma defaultJobOptions_ignores_timeout (env : Env) (v : string) :
  defaultJobOptions (<["JOB_TIMEOUT" := v]> env) = defaultJobOptions env.
Proof.
  unfold defaultJobOptions, attempts.
  by rewrite lookup_insert_ne.
Qed.

(** The options never carry a [timeout]. *)
Lemma defaultJobOptions_no_timeout (env : Env) :
  has_field "timeout" (defaultJobOptions env) = false.
Proof. reflexivity. Qed.

(** C8, with [JOB_TIMEOUT=1000]. The handle is created with the options it
    would have without the variable, none of which is a timeout, and the
    callback waits its 2000 ms and returns a success: the run is not cut
    at 1000 ms and is not turned into a failure. *)
Theorem job_timeout_not_applied (bull : listing) :
  timeout_env !! "JOB_TIMEOUT" = Some "1000"
  ∧ ∃ q v,
      jobQueue timeout_env (inr ∅) bull = Some (Up q)
      ∧ opts q = defaultJobOptions (delete "JOB_TIMEOUT" timeout_env)
      ∧ has_field "timeout" (opts q) = false
      ∧ Worker.processor odd_job = (2000, inr v)
      ∧ json_field "success" v = Some (JBool true).
Proof.
  split; [reflexivity|].
  eexists _, _. split; [reflexivity|].
  repeat split; reflexivity.
Qed.

End Enqueue.

(** ** The theorems at concrete inputs *)
Section Instances.
Import Queue Jobs Samples.

(** Three failing attempts under the default options: delays of 2000 and
    4000 ms, then [failed]. *)
Lemma retry_until_max_attempts_default :
  Retry.policy_of (defaultJobOptions ∅)
    = Some {| Retry.maxAttempts := 3; Retry.base := 2000 |}
  ∧ ∃ jf r,
      Retry.execute {| Retry.maxAttempts := 3; Retry.base := 2000 |} 5000
        (inl <$> ["ENOENT"; "ENOENT"; "soffice exited"])
        (sample_job "waiting" 0).2
        = (jf, [2000; 4000])
      ∧ state jf = "failed"
      ∧ attemptsMade jf = 3
      ∧ last ["ENOENT"; "ENOENT"; "soffice exited"] = Some r
      ∧ failedReason jf = JString r
      ∧ finishedOn jf = Some 5000.
Proof.
  split; [reflexivity|].
  destruct (retry_until_max_attempts ∅
              {| Retry.maxAttempts := 3; Retry.base := 2000 |} 5000
              ["ENOENT"; "ENOENT"; "soffice exited"]
              (sample_job "waiting" 0).2)
    as (_ & _ & _ & H);
    [reflexivity | cbn; lia | reflexivity | reflexivity | reflexivity |].
  exact H.
Defined.

(** Cancelling the completed job [j1] and the waiting job [j0] of
    [mixed]. *)
Lemma cancel_terminal_or_waiting_mixed :
  (∃ r, serve ∅ (Some (Up mixed)) (Cancel "j1") = Some (r, Some (Up mixed))
        ∧ status r = 400
        ∧ body_field "error" r = Some (JString "Cannot cancel job"))
  ∧ (∃ r q' r',
       serve ∅ (Some (Up mixed)) (Cancel "j0") = Some (r, Some (Up q'))
       ∧ status r = 200
       ∧ body_field "success" r = Some (JBool true)
       ∧ jobs q' = delete "j0" (jobs mixed)
       ∧ jobs q' !! "j0" = None
       ∧ serve ∅ (Some (Up q')) (Status "j0") = Some (r', Some (Up q'))
       ∧ status r' = 404).
Proof.
  split.
  - apply (cancel_terminal_or_waiting ∅ mixed "j1" (sample_job "completed" 1).2);
      [reflexivity | reflexivity | left; reflexivity].
  - apply (cancel_terminal_or_waiting ∅ mixed "j0" (sample_job "waiting" 0).2);
      [reflexivity | reflexivity | reflexivity].
Defined.


(** Without [REDIS_URL], a status query. *)
Lemma no_queue_503_status :
  (∅ : Env) !! "REDIS_URL" = None
  ∧ serve ∅ (jobQueue ∅ (inr (jobs mixed)) rejecting) (Status "j0")
    = Some (unavailable, None).
Proof.
  split; [reflexivity|].
  apply (no_queue_503 ∅ (inr (jobs mixed)) rejecting (Status "j0")).
  left; reflexivity.
Defined.

(** Three workers, three waiting jobs. *)
Lemma claimNext_no_duplicate_three :
  (length ["w1"; "w2"; "w3"] ≤ Claim.waiting_count three_waiting)%nat
  ∧ NoDup (Claim.claimed (Claim.claimAll 5000 ["w1"; "w2"; "w3"] three_waiting).1).
Proof.
  assert (length ["w1"; "w2"; "w3"] ≤ Claim.waiting_count three_waiting)%nat
    as Hm by (vm_compute; lia).
  split; [exact Hm|].
  destruct (claimNext_no_duplicate 5000 ["w1"; "w2"; "w3"] three_waiting Hm)
    as (rs & s' & Hc & _ & _ & Hnd & _).
  rewrite Hc. exact Hnd.
Defined.

(** A POST that declares an unknown type. *)
Lemma job_routes_create_nothing_post :
  meth (enqueue_request "no-such-type") = POST
  ∧ router (Some (Up mixed)) (enqueue_request "no-such-type")
    = (NoRoute, Some (Up mixed)).
Proof.
  split; [reflexivity|].
  destruct (job_routes_create_nothing (Some (Up mixed))
              (enqueue_request "no-such-type")) as [H _].
  apply H. reflexivity.
Defined.

(** C7 as stated fails: an enqueue request that declares a type no
    converter has is not rejected with [UnsupportedType]; the router
    passes it on unanswered. *)
Lemma enqueue_unknown_type_not_rejected :
  router (Some (Up mixed)) (enqueue_request "no-such-type")
    = (NoRoute, Some (Up mixed))
  ∧ ¬ rejected_with "UnsupportedType"
        (router (Some (Up mixed)) (enqueue_request "no-such-type")).1.
Proof.
  split; [reflexivity|].
  intros Hrej. exact Hrej.
Qed.

(** C5 as stated fails: with [REDIS_URL] set and the store refusing the
    connection, the status query is answered 500 by the error handler,
    not 503. *)
Lemma unreachable_store_500 :
  jobQueue redis_env (inl econnrefused) rejecting = Some (Down econnrefused)
  ∧ ∃ r, serve redis_env (jobQueue redis_env (inl econnrefused) rejecting)
           (Status "j0")
           = Some (r, Some (Down econnrefused))
         ∧ status r = 500
         ∧ body_field "code" r = Some (JString "INTERNAL_ERROR")
         ∧ status r ≠ 503.
Proof.
  split; [reflexivity|].
  eexists. split; [reflexivity|].
  repeat split. done.
Qed.

End Instances.

(** ** CSV rows *)
Section CsvRows.
Import Csv.
Context {U : Type} `{EqDecision U}.
Variable quote : U.

Abbreviation parse_from := (parse_from quote).
Abbreviation parseCSVRow := (parseCSVRow quote).

Lemma includes_one (d : U) (s : list U) :
  includes [d] s = false → d ∉ s.
Proof.
  induction s as [|c s IH]; cbn; intros Hi Hin; [by apply elem_of_nil in Hin|].
  apply orb_false_elim in Hi as [Hc Hs].
  apply elem_of_cons in Hin as [->|Hin]; [|by apply IH].
  rewrite bool_decide_eq_true_2 in Hc by done. done.
Qed.

Lemma not_in_includes_one (d : U) (s : list U) :
  d ∉ s → includes [d] s = false.
Proof.
  induction s as [|c s IH]; cbn; intros Hn; [done|].
  apply not_elem_of_cons in Hn as [Hne Hn].
  rewrite bool_decide_eq_false_2 by done. cbn. by apply IH.
Qed.

(** A stretch of units that are neither quote nor delimiter is appended to
    the current field. *)
Lemma parse_plain (d : U) (s tail current : list U) (inQuotes : bool) :
  quote ∉ s → (inQuotes = false → d ∉ s) →
  parse_from [d] (s ++ tail) current inQuotes
  = parse_from [d] tail (current ++ s) inQuotes.
Proof.
  revert current. induction s as [|c s IH]; intros current Hq Hd.
  - by rewrite app_nil_r.
  - apply not_elem_of_cons in Hq as [Hcq Hq]. cbn.
    rewrite decide_False by done.
    assert (bool_decide ([d] = [c]) && negb inQuotes = false) as ->.
    { destruct inQuotes; [by rewrite andb_false_r|].
      specialize (Hd eq_refl). apply not_elem_of_cons in Hd as [Hne _].
      rewrite bool_decide_eq_false_2; [done|]. intros [= ->]. done. }
    rewrite IH; [by rewrite <- app_assoc | done |].
    intros Hi. specialize (Hd Hi). by apply not_elem_of_cons in Hd as [_ ?].
Qed.

(** Inside quotes, a text whose quotes are doubled is read back as it
    was, up to the closing quote. *)
Lemma parse_doubled (d : U) (s tail current : list U) :
  d ≠ quote → head tail ≠ Some quote →
  parse_from [d] (double_quotes quote s ++ quote :: tail) current true
  = parse_from [d] tail (current ++ s) false.
Proof.
  intros Hd Ht. revert current.
  induction s as [|c s IH]; intros current.
  - cbn. rewrite decide_True by done. rewrite app_nil_r.
    destruct tail as [|c' tail']; [done|].
    rewrite bool_decide_eq_false_2; [done|].
    intros ->. by apply Ht.
  - unfold double_quotes. cbn [flat_map].
    destruct (decide (c = quote)) as [->|Hc].
    + cbn. rewrite decide_True by done.
      rewrite bool_decide_eq_true_2 by done. cbn.
      fold (double_quotes quote s). rewrite IH. by rewrite <- app_assoc.
    + cbn. rewrite decide_False by done. rewrite andb_false_r.
      fold (double_quotes quote s). rewrite IH. by rewrite <- app_assoc.
Qed.

(** Outside quotes, a quote opens a quoted stretch. *)
Lemma parse_open (delimiter rest current : list U) :
  parse_from delimiter (quote :: rest) current false
  = parse_from delimiter rest current true.
Proof. cbn. rewrite decide_True by done. by destruct rest. Qed.

(** Outside quotes, the delimiter closes the current field. *)
Lemma parse_delimiter (d : U) (rest current : list U) :
  d ≠ quote →
  parse_from [d] (d :: rest) current false
  = current :: parse_from [d] rest [] false.
Proof.
  intros Hd. cbn. rewrite decide_False by done.
  by rewrite bool_decide_eq_true_2.
Qed.

Lemma parse_quoted (d : U) (s tail current : list U) :
  d ≠ quote → head tail ≠ Some quote →
  parse_from [d] (([quote] ++ double_quotes quote s ++ [quote]) ++ tail)
    current false
  = parse_from [d] tail (current ++ s) false.
Proof.
  intros Hd Ht.
  replace (([quote] ++ double_quotes quote s ++ [quote]) ++ tail)
    with (quote :: (double_quotes quote s ++ quote :: tail))
    by (cbn; by rewrite <- app_assoc).
  rewrite parse_open. by apply parse_doubled.
Qed.

(** What [field] writes for a cell is read back as [shown]. *)
Lemma parse_field (d : U) (c : cell) (f tail current : list U) :
  d ≠ quote → head tail ≠ Some quote →
  field quote [d] c = Some f →
  parse_from [d] (f ++ tail) current false
  = parse_from [d] tail (current ++ shown quote c) false.
Proof.
  intros Hd Ht. destruct c as [|truthy text]; [done|]. cbn [field shown].
  destruct (includes [quote] text) eqn:Eq.
  - rewrite orb_true_r. intros [= <-]. rewrite orb_true_r.
    by apply parse_quoted.
  - rewrite !orb_false_r.
    destruct truthy; cbn.
    + destruct (includes [d] text) eqn:Ed; intros [= <-].
      * by apply parse_quoted.
      * apply parse_plain; [by apply includes_one|].
        intros _. by apply includes_one.
    + intros [= <-]. by rewrite app_nil_r.
Qed.

Lemma join_cons (sep p q : list U) (ps : list (list U)) :
  join sep (p :: q :: ps) = p ++ sep ++ join sep (q :: ps).
Proof. reflexivity. Qed.

Lemma parse_fields (d : U) (cells : list cell) :
  ∀ (fs : list (list U)) (current : list U),
    d ≠ quote → cells ≠ [] →
    mapM (field quote [d]) cells = Some fs →
    parse_from [d] (join [d] fs) current false
    = match shown quote <$> cells with
      | [] => [current]
      | s :: ss => (current ++ s) :: ss
      end.
Proof.
  induction cells as [|c cells IH]; intros fs current Hd Hne Hm; [done|].
  cbn in Hm. destruct (field quote [d] c) as [f|] eqn:Ef; [|done].
  cbn in Hm. destruct (mapM (field quote [d]) cells) as [fs'|] eqn:Em; [|done].
  injection Hm as <-. cbn [fmap list_fmap].
  destruct cells as [|c2 cells].
  - cbn in Em. injection Em as <-. cbn [join].
    rewrite <- (app_nil_r f).
    rewrite (parse_field d c f [] current Hd); [done | done | done].
  - destruct fs' as [|f2 fs'].
    { cbn in Em. destruct (field quote [d] c2); [|done]. cbn in Em.
      destruct (mapM _ cells); done. }
    rewrite (join_cons [d] f f2 fs').
    rewrite (parse_field d c f _ current Hd); [| |done].
    2:{ cbn. intros [= ->]. done. }
    cbn [app]. rewrite parse_delimiter by done.
    rewrite (IH (f2 :: fs') [] Hd); [|done|done].
    cbn [fmap list_fmap]. done.
Qed.

Lemma mapM_field_Some (delimiter : list U) (cells : list cell) :
  Null ∉ cells → is_Some (mapM (field quote delimiter) cells).
Proof.
  induction cells as [|c cells IH]; intros Hn; [by eexists|].
  apply not_elem_of_cons in Hn as [Hc Hn].
  destruct (IH Hn) as [fs Hfs]. cbn. rewrite Hfs.
  destruct c as [|truthy text]; [done|]. cbn.
  destruct (_ || _); by eexists.
Qed.

(** X1. Writing a row of cells as a CSV line and reading the line back.
    With a one-unit delimiter other than the quote and no empty ([null])
    cell, [csv_row] produces a line, and [parseCSVRow] splits that line
    into one field per cell holding the cell's text, whatever delimiters
    and quotes the text contains; a falsy cell (0, [false], the empty
    string) comes back as an empty field. *)
Theorem csv_row_read_back (d : U) (cells : list cell)
    (Hd : d ≠ quote) (Hne : cells ≠ []) (Hnull : Null ∉ cells) :
  ∃ line,
    csv_row quote [d] cells = Some line
    ∧ parseCSVRow line [d] = shown quote <$> cells.
Proof.
  destruct (mapM_field_Some [d] cells Hnull) as [fs Hfs].
  exists (join [d] fs). unfold csv_row. rewrite Hfs. split; [done|].
  unfold Csv.parseCSVRow.
  rewrite (parse_fields d cells fs [] Hd Hne Hfs).
  destruct cells; done.
Qed.

(** X2. A row whose fields hold neither the delimiter nor a quote is split
    exactly at the delimiters. *)
Theorem parseCSVRow_plain (d : U) (fields : list (list U))
    (Hd : d ≠ quote) (Hne : fields ≠ [])
    (Hplain : ∀ f, f ∈ fields → (d ∉ f) ∧ (quote ∉ f)) :
  parseCSVRow (join [d] fields) [d] = fields.
Proof.
  assert (mapM (field quote [d]) (Value true <$> fields) = Some fields
          ∧ shown quote <$> (Value true <$> fields) = fields) as [Hm Hs].
  { clear Hne. induction fields as [|f fields IH]; [done|].
    destruct (Hplain f) as [Hfd Hfq]; [left|].
    destruct IH as [IH1 IH2]; [intros g Hg; apply Hplain; by right|].
    rewrite !fmap_cons. split.
    - simpl mapM. rewrite IH1. simpl.
      by rewrite (not_in_includes_one d f Hfd), (not_in_includes_one quote f Hfq).
    - rewrite IH2. done. }
  unfold Csv.parseCSVRow.
  rewrite (parse_fields d (Value true <$> fields) fields [] Hd); [| |done].
  - rewrite Hs. by destruct fields.
  - by destruct fields.
Qed.

(** X3. A row with an empty cell cannot be written: [value.toString()] is
    reached with [null] and throws, whatever the other cells hold. *)
Theorem csv_row_null_cell (delimiter : list U) (cells : list cell)
    (Hnull : Null ∈ cells) :
  csv_row quote delimiter cells = None.
Proof.
  unfold csv_row. induction cells as [|c cells IH];
    [by apply elem_of_nil in Hnull|].
  cbn. apply elem_of_cons in Hnull as [<-|Hin]; [done|].
  destruct (field quote delimiter c); [|done]. cbn.
  specialize (IH Hin).
  destruct (mapM (field quote delimiter) cells); [done|done].
Qed.

(** X4. After a quote that is never closed, the rest of the row is one
    field, delimiters included. *)
Theorem parseCSVRow_unclosed_quote (d : U) (before rest : list U)
    (Hd : d ≠ quote) (Hb : (d ∉ before) ∧ (quote ∉ before))
    (Hr : quote ∉ rest) :
  parseCSVRow (before ++ quote :: rest) [d] = [before ++ rest].
Proof.
  unfold Csv.parseCSVRow. destruct Hb as [Hbd Hbq].
  rewrite parse_plain by done.
  rewrite parse_open.
  rewrite <- (app_nil_r rest) at 1.
  rewrite parse_plain by done. done.
Qed.

(** A delimiter that is not exactly one unit long is never met. *)
Lemma parse_from_no_split (delimiter : list U) (n : nat) :
  length delimiter ≠ 1%nat →
  ∀ row current inQuotes, (length row ≤ n)%nat →
    ∃ f, parse_from delimiter row current inQuotes = [f].
Proof.
  intros Hl. induction n as [|n IH]; intros row current inQuotes Hn.
  - destruct row; [by eexists | cbn in Hn; lia].
  - destruct row as [|c rest]; [by eexists|]. cbn in Hn. cbn.
    destruct (decide (c = quote)).
    + destruct rest as [|c' rest']; [by eexists|].
      destruct (inQuotes && bool_decide (c' = quote)).
      * apply IH. cbn in Hn. lia.
      * apply IH. lia.
    + rewrite bool_decide_eq_false_2; [apply IH; lia|].
      intros ->. done.
Qed.

(** X5. With a delimiter of several units, or an empty one, the row is
    never split: there is one field, and it is the row itself when the row
    has no quote. *)
Theorem parseCSVRow_long_delimiter (row delimiter : list U)
    (Hl : length delimiter ≠ 1%nat) :
  ∃ f, parseCSVRow row delimiter = [f] ∧ (quote ∉ row → f = row).
Proof.
  destruct (parse_from_no_split delimiter (length row) Hl row [] false)
    as [f Hf]; [done|].
  exists f. split; [done|]. intros Hq.
  unfold Csv.parseCSVRow in Hf.
  assert (∀ r cur, quote ∉ r →
            parse_from delimiter r cur false = [cur ++ r]) as Hplain.
  { induction r as [|c r IH]; intros cur Hr; [by rewrite app_nil_r|].
    apply not_elem_of_cons in Hr as [Hc Hr]. cbn.
    rewrite decide_False by done.
    rewrite bool_decide_eq_false_2 by (intros ->; done). cbn.
    rewrite IH by done. by rewrite <- app_assoc. }
  rewrite Hplain in Hf by done. by injection Hf as <-.
Qed.

End CsvRows.

(** ** Authentication and error answers *)
Section Access.
Import Auth.

(** X6. The API routes are reached without an answer from the guard in
    exactly three cases: the process does not run with
    [NODE_ENV=production]; no proxy secret is configured (unset or empty),
    whatever the request carries; or the request's
    [x-rapidapi-proxy-secret] header equals the configured secret. In every
    other case the answer is the 401 [UNAUTHORIZED]. *)
Theorem api_guard_lets_through (env : Env) (headers : gmap string string) :
  ((∃ info, api_guard env headers = Continue info)
   ↔ (env !! "NODE_ENV" ≠ Some "production"
      ∨ env !! "RAPIDAPI_PROXY_SECRET" = None
      ∨ env !! "RAPIDAPI_PROXY_SECRET" = Some ""
      ∨ headers !! "x-rapidapi-proxy-secret" = env !! "RAPIDAPI_PROXY_SECRET"))
  ∧ ((∀ info, api_guard env headers ≠ Continue info)
     → api_guard env headers = Denied unauthorized).
Proof.
  unfold api_guard, validateRapidAPI.
  destruct (decide (env !! "NODE_ENV" = Some "production")) as [Hp|Hp].
  2:{ split; [|intros H; by destruct (H None)]. split; eauto. }
  destruct (env !! "RAPIDAPI_PROXY_SECRET") as [expected|] eqn:Ee.
  2:{ split; [|intros H; by destruct (H None)]. split; eauto. }
  destruct expected as [|c expected].
  { split; [|intros H; by destruct (H None)]. split; eauto. }
  cbn [Js.truthy_str negb].
  destruct (headers !! "x-rapidapi-proxy-secret") as [given|] eqn:Eg.
  2:{ split; [|done]. split; [by intros [? ?]|].
      intros [?|[?|[?|?]]]; done. }
  destruct (String.eqb_spec given (String c expected)) as [->|Hne].
  - cbn. split; [|intros H; by edestruct H]. split; eauto 6.
  - rewrite orb_true_r. split; [|done]. split; [by intros [? ?]|].
    intros [?|[?|[?|[= ?]]]]; done.
Qed.

(** X7. In production the message of an error is not sent back unless the
    error is a validation, conversion or job-not-found error: two errors
    that differ only in their message and details get the same answer. *)
Theorem errorHandler_hides_message (env : Env) (e1 e2 : Errors.error)
    (Hprod : env !! "NODE_ENV" = Some "production")
    (Hname : Errors.name e1 = Errors.name e2)
    (Hcode : Errors.code e1 = Errors.code e2)
    (Hstatus : Errors.err_status e1 = Errors.err_status e2)
    (Hkind : Errors.name e1 ∉ ["ValidationError"; "ConversionError";
                               "JobNotFoundError"]) :
  Errors.errorHandler env e1 = Errors.errorHandler env e2.
Proof.
  unfold Errors.errorHandler, Errors.code_is.
  rewrite <- Hname, <- Hcode, <- Hstatus.
  destruct (match Errors.code e1 with
            | Some c' => String.eqb c' "LIMIT_FILE_SIZE" | None => false end);
    [done|].
  destruct (match Errors.code e1 with
            | Some c' => String.eqb c' "LIMIT_UNEXPECTED_FILE" | None => false end);
    [done|].
  destruct (String.eqb_spec (Errors.name e1) "ValidationError") as [E|_].
  { exfalso. apply Hkind. rewrite E. set_solver. }
  destruct (String.eqb_spec (Errors.name e1) "ConversionError") as [E|_].
  { exfalso. apply Hkind. rewrite E. set_solver. }
  destruct (String.eqb_spec (Errors.name e1) "JobNotFoundError") as [E|_].
  { exfalso. apply Hkind. rewrite E. set_solver. }
  rewrite !decide_True by done. done.
Qed.

End Access.

(** ** File names and file filters *)
Section FileNames.
Import Path Filters.

Ltac list_mem :=
  cbn in *; rewrite ?elem_of_cons, ?elem_of_nil in *; intuition congruence.

Lemma units_app (a b : string) :
  list_ascii_of_string (a +:+ b)
  = list_ascii_of_string a ++ list_ascii_of_string b.
Proof. induction a as [|c a IH]; cbn; [done|]. by rewrite <- IH. Qed.

Lemma units_of_list (l : list ascii) :
  list_ascii_of_string (string_of_list_ascii l) = l.
Proof. apply list_ascii_of_string_of_list_ascii. Qed.

Lemma before_elem (c x : ascii) (l : list ascii) :
  x ∈ before c l → x ≠ c ∧ x ∈ l.
Proof.
  induction l as [|y l IH]; cbn; [by intros ?%elem_of_nil|].
  destruct (decide (y = c)); [by intros ?%elem_of_nil|].
  intros [->|Hx]%elem_of_cons; [split; [done|left]|].
  destruct (IH Hx). split; [done|by right].
Qed.

(** The extension holds no slash. *)
Lemma extname_no_slash (p : string) :
  slash ∉ list_ascii_of_string (extname p).
Proof.
  unfold extname.
  destruct (after dot (last_portion_rev p)) as [[|x l]|];
    [by intros ?%elem_of_nil | | by intros ?%elem_of_nil].
  destruct (decide _); [by intros ?%elem_of_nil|].
  rewrite units_of_list.
  intros [E|Hin]%elem_of_cons; [done|].
  apply elem_of_reverse, before_elem in Hin as [_ Hin].
  unfold last_portion_rev in Hin. by apply before_elem in Hin as [? _].
Qed.

Lemma pretty_N_char_digit (x : N) : Path.digit (pretty_N_char x).
Proof.
  unfold digit, pretty_N_char.
  repeat case_match; cbn; repeat constructor.
Qed.

Lemma pretty_N_go_units (x : N) :
  ∀ s c, c ∈ list_ascii_of_string (pretty_N_go x s) →
         c ∈ list_ascii_of_string s ∨ digit c.
Proof.
  induction (N.lt_wf_0 x) as [x _ IH]; intros s c.
  assert (x = 0 ∨ 0 < x)%N as [->|Hx] by lia.
  - rewrite pretty_N_go_0. by left.
  - rewrite pretty_N_go_step by done.
    intros Hc. apply IH in Hc; [|by apply N.div_lt].
    destruct Hc as [Hc|Hc]; [|by right].
    cbn in Hc. apply elem_of_cons in Hc as [->|Hc]; [|by left].
    right. apply pretty_N_char_digit.
Qed.

(** The decimal text of an integer holds digits and at most a sign. *)
Lemma string_of_Z_units (z : Z) (c : ascii) :
  c ∈ list_ascii_of_string (Js.string_of_Z z) →
  digit c ∨ c = ascii_of_nat 45.
Proof.
  unfold Js.string_of_Z, pretty, pretty_Z.
  destruct z as [|x|x].
  - cbn. intros ->%list_elem_of_singleton. left. unfold digit. list_mem.
  - unfold pretty, pretty_positive, pretty, pretty_N. cbn [decide].
    rewrite decide_False by done.
    intros [Hc|Hc]%pretty_N_go_units; [by apply elem_of_nil in Hc | by left].
  - rewrite units_app. cbn.
    intros [->|Hc]%elem_of_cons; [by right|].
    unfold pretty, pretty_positive, pretty, pretty_N in Hc.
    rewrite decide_False in Hc by done.
    apply pretty_N_go_units in Hc as [Hc|Hc];
      [by apply elem_of_nil in Hc | by left].
Qed.

(** X8. The name a stored upload gets has no slash other than those of the
    generated identifier, whatever the name the client sent: nothing of
    the client's name but its extension is used, and an extension holds
    no slash. *)
Theorem uniqueName_no_slash (uuid originalname : string) (now : Z)
    (Huuid : slash ∉ list_ascii_of_string uuid) :
  slash ∉ list_ascii_of_string (uniqueName uuid now originalname).
Proof.
  unfold uniqueName. rewrite !units_app.
  rewrite !elem_of_app. intros [H|[H|[H|H]]].
  - done.
  - cbn in H. by apply list_elem_of_singleton in H.
  - apply string_of_Z_units in H as [H|H]; [|done].
    unfold digit in H. cbn in H.
    repeat (apply elem_of_cons in H as [H|H]; [done|]).
    by apply elem_of_nil in H.
  - by apply extname_no_slash in H.
Qed.

(** X9. Whatever the excel filter accepts, the office filter accepts. *)
Theorem excel_accepted_by_office (originalname mimetype : string)
    (Hx : fileFilter Excel originalname mimetype = inr ()) :
  fileFilter Office originalname mimetype = inr ().
Proof.
  unfold fileFilter in *.
  destruct (bool_decide (mimetype ∈ allowedTypes Excel)) eqn:Em.
  - apply bool_decide_eq_true in Em.
    rewrite (bool_decide_eq_true_2 (mimetype ∈ allowedTypes Office));
      [done|]. list_mem.
  - destruct (bool_decide (_ ∈ allowedExtensions Excel)) eqn:Ee; [|done].
    apply bool_decide_eq_true in Ee.
    rewrite (bool_decide_eq_true_2 (_ ∈ allowedExtensions Office));
      [by rewrite orb_true_r|]. list_mem.
Qed.

Lemma find_mimeToExt (mimetype : string) :
  match List.find (fun kv => String.eqb mimetype (fst kv)) mimeToExt with
  | Some kv => mimetype ∈ allowedTypes Office
               ∧ snd kv ∈ allowedExtensions Office
  | None => mimetype ∉ allowedTypes Office
  end.
Proof.
  cbn.
  repeat (match goal with
          | |- context [String.eqb ?a ?b] =>
              destruct (String.eqb_spec a b) as [->|?]
          end; [split; list_mem|]).
  list_mem.
Qed.

(** X10. For a file the office filter accepted, [getOfficeFileType] is one
    of the six office extensions, unless the declared MIME type is the
    name of a member of [Object.prototype], in which case the table lookup
    returns that member. *)
Theorem office_type_of_accepted (originalname mimetype : string)
    (Hacc : fileFilter Office originalname mimetype = inr ()) :
  match getOfficeFileType originalname mimetype with
  | inr ext => ext ∈ allowedExtensions Office
  | inl member => member = mimetype ∧ mimetype ∈ prototype_members
  end.
Proof.
  unfold getOfficeFileType, fileFilter in *.
  pose proof (find_mimeToExt mimetype) as Hf.
  destruct (List.find _ mimeToExt) as [kv|]; [by destruct Hf|].
  rewrite (bool_decide_eq_false_2 _ Hf), orb_false_l in Hacc.
  destruct (bool_decide (mimetype ∈ prototype_members)) eqn:Ep.
  - by apply bool_decide_eq_true in Ep.
  - destruct (bool_decide
                (toLowerCase (extname originalname) ∈ allowedExtensions Office))
      eqn:Ee; [|done].
    by apply bool_decide_eq_true in Ee.
Qed.

Lemma lower_fixes (c x : ascii) :
  c = slash ∨ c = dot → (lower x = c ↔ x = c).
Proof.
  intros [-> | ->];
    destruct x as [[] [] [] [] [] [] [] []]; vm_compute; split; congruence.
Qed.

Lemma lower_idemp (x : ascii) : lower (lower x) = lower x.
Proof. destruct x as [[] [] [] [] [] [] [] []]; reflexivity. Qed.

Lemma units_toLowerCase (s : string) :
  list_ascii_of_string (toLowerCase s) = lower <$> list_ascii_of_string s.
Proof. induction s as [|c s IH]; cbn; [done|]. by rewrite IH. Qed.

Lemma toLowerCase_of_list (l : list ascii) :
  toLowerCase (string_of_list_ascii l) = string_of_list_ascii (lower <$> l).
Proof. induction l as [|c l IH]; cbn; [done|]. by rewrite IH. Qed.

Lemma before_lower (c : ascii) (l : list ascii) :
  c = slash ∨ c = dot → before c (lower <$> l) = lower <$> before c l.
Proof.
  intros Hc. induction l as [|x l IH]; cbn; [done|].
  destruct (decide (x = c)) as [->|Hx].
  - rewrite decide_True; [done|]. by apply lower_fixes.
  - rewrite decide_False; [cbn; by rewrite IH|].
    intros E. by apply (lower_fixes c x Hc) in E.
Qed.

Lemma after_lower (c : ascii) (l : list ascii) :
  c = slash ∨ c = dot →
  after c (lower <$> l) = (fun r : list ascii => lower <$> r) <$> after c l.
Proof.
  intros Hc. induction l as [|x l IH]; cbn; [done|].
  destruct (decide (x = c)) as [->|Hx].
  - rewrite decide_True; [done|]. by apply lower_fixes.
  - rewrite decide_False; [done|].
    intros E. by apply (lower_fixes c x Hc) in E.
Qed.

Lemma skip_lower (c : ascii) (l : list ascii) :
  c = slash ∨ c = dot → skip c (lower <$> l) = lower <$> skip c l.
Proof.
  intros Hc. induction l as [|x l IH]; cbn; [done|].
  destruct (decide (x = c)) as [->|Hx].
  - rewrite decide_True; [done|]. by apply lower_fixes.
  - rewrite decide_False; [done|].
    intros E. by apply (lower_fixes c x Hc) in E.
Qed.

Lemma last_portion_lower (p : string) :
  last_portion_rev (toLowerCase p) = lower <$> last_portion_rev p.
Proof.
  unfold last_portion_rev.
  rewrite units_toLowerCase, <- fmap_reverse, skip_lower, before_lower;
    auto.
Qed.

(** Lower-casing a path lower-cases its extension. *)
Lemma extname_toLowerCase (p : string) :
  extname (toLowerCase p) = toLowerCase (extname p).
Proof.
  unfold extname. rewrite last_portion_lower, after_lower by auto.
  destruct (after dot (last_portion_rev p)) as [[|x l]|]; cbn; [done| |done].
  destruct (decide (last_portion_rev p = [dot; dot])) as [E|E].
  - rewrite E. done.
  - rewrite decide_False.
    + rewrite before_lower, <- fmap_reverse by auto.
      change (string_of_list_ascii (dot :: ?l))
        with (String dot (string_of_list_ascii l)).
      cbn [toLowerCase]. change (lower dot) with dot.
      by rewrite toLowerCase_of_list.
    + intros E'. apply E.
      destruct (last_portion_rev p) as [|a [|b [|c l']]]; try done.
      cbn in E'. injection E' as Ha Hb.
      apply (lower_fixes dot a) in Ha; [|by right].
      apply (lower_fixes dot b) in Hb; [|by right]. by subst.
Qed.

Lemma toLowerCase_idemp (s : string) :
  toLowerCase (toLowerCase s) = toLowerCase s.
Proof.
  induction s as [|c s IH]; cbn; [done|]. by rewrite IH, lower_idemp.
Qed.

(** X11. A filter decides the same for a name and for the name in lower
    case: the letter case of the uploaded name does not matter. *)
Theorem fileFilter_ignores_case (k : kind) (originalname mimetype : string) :
  fileFilter k (toLowerCase originalname) mimetype
  = fileFilter k originalname mimetype.
Proof.
  unfold fileFilter.
  by rewrite extname_toLowerCase, toLowerCase_idemp.
Qed.

End FileNames.

(** ** Where an upload is stored, and its removal after the answer *)
Section StoredUploads.
Import Path Filters Upload.

Lemma split_nonempty (l : list ascii) : split l ≠ [].
Proof.
  destruct l as [|x l]; [done|]. cbn.
  destruct (decide (x = slash)); [done|]. by destruct (split l).
Qed.

Lemma split_simple (n : list ascii) : slash ∉ n → split n = [n].
Proof.
  induction n as [|x n IH]; [done|]. intros Hn.
  apply not_elem_of_cons in Hn as [Hx Hn]. cbn.
  rewrite decide_False by done. by rewrite IH.
Qed.

Lemma split_app (d n : list ascii) :
  split (d ++ slash :: n) = split d ++ split n.
Proof.
  induction d as [|x d IH]; cbn.
  - by rewrite decide_True.
  - destruct (decide (x = slash)); [by rewrite IH|].
    rewrite IH. pose proof (split_nonempty d).
    by destruct (split d).
Qed.

Lemma step_simple (b : bool) (kept : list (list ascii)) (n : list ascii) :
  n ≠ [] → n ≠ [dot] → n ≠ [dot; dot] → step b kept n = n :: kept.
Proof. intros. unfold step. by rewrite !decide_False. Qed.

Lemma glue_snoc (l : list (list ascii)) (n : list ascii) :
  glue (l ++ [n]) = match l with [] => n | _ => glue l ++ slash :: n end.
Proof.
  induction l as [|p l IH]; [done|].
  cbn [app glue]. rewrite IH.
  destruct l as [|p' l]; [done|]. cbn [app]. by rewrite <- app_assoc.
Qed.

Lemma last_simple (d n : list ascii) :
  n ≠ [] → slash ∉ n → last (d ++ slash :: n) ≠ Some slash.
Proof.
  intros Hne Hn H.
  destruct (exists_last Hne) as (n' & x & ->).
  replace (d ++ slash :: n' ++ [x]) with ((d ++ slash :: n') ++ [x]) in H
    by (by rewrite <- app_assoc).
  rewrite last_snoc in H.
  injection H as ->. apply Hn, elem_of_app. right. by apply list_elem_of_singleton.
Qed.

(** Joining a directory and a name of one portion: the directory is
    normalized and the name is its last portion. *)
Lemma join_simple (dir name : string) :
  dir ≠ "" →
  list_ascii_of_string name ≠ [] → slash ∉ list_ascii_of_string name →
  list_ascii_of_string name ≠ [dot] →
  list_ascii_of_string name ≠ [dot; dot] →
  join dir name
  = string_of_list_ascii
      ((if bool_decide (head (list_ascii_of_string dir) = Some slash)
        then [slash] else [])
       ++ glue (reverse (list_ascii_of_string name
                  :: foldl (step (negb (bool_decide
                              (head (list_ascii_of_string dir) = Some slash))))
                       [] (split (list_ascii_of_string dir))))).
Proof.
  intros Hd. unfold join.
  destruct (list_ascii_of_string dir) as [|x d] eqn:Ed.
  { destruct dir; done. }
  destruct (list_ascii_of_string name) as [|y n];
    [intros Hne; by destruct Hne|].
  intros Hne Hs H1 H2. f_equal. unfold normalize. cbn [app head].
  pose proof (last_simple (x :: d) (y :: n) Hne Hs) as Hl.
  cbn [app] in Hl. rewrite (bool_decide_eq_false_2 _ Hl).
  change (x :: d ++ slash :: y :: n) with ((x :: d) ++ slash :: y :: n).
  rewrite split_app, (split_simple (y :: n)), foldl_app by done.
  cbn [foldl]. rewrite step_simple by done.
  rewrite reverse_cons, glue_snoc.
  destruct (reverse _) as [|p l]; cbn [app].
  - by rewrite app_nil_r.
  - destruct (glue (p :: l) ++ slash :: y :: n) as [|z r] eqn:E.
    + by destruct (glue (p :: l)).
    + by rewrite app_nil_r.
Qed.

Lemma string_of_app (l : list ascii) (s : string) :
  string_of_list_ascii (l ++ list_ascii_of_string s)
  = string_of_list_ascii l +:+ s.
Proof.
  induction l as [|x l IH]; cbn.
  - apply string_of_list_ascii_of_string.
  - by rewrite IH.
Qed.

(** The stored name is one portion: not empty, without a slash when the
    generated identifier has none, and neither [.] nor [..]. *)
Lemma uniqueName_simple (uuid originalname : string) (now : Z) :
  slash ∉ list_ascii_of_string uuid →
  list_ascii_of_string (uniqueName uuid now originalname) ≠ []
  ∧ (slash ∉ list_ascii_of_string (uniqueName uuid now originalname))
  ∧ list_ascii_of_string (uniqueName uuid now originalname) ≠ [dot]
  ∧ list_ascii_of_string (uniqueName uuid now originalname) ≠ [dot; dot].
Proof.
  intros Huuid.
  assert (Hdash : ("-"%char : ascii)
                  ∈ list_ascii_of_string (uniqueName uuid now originalname)).
  { unfold uniqueName. rewrite !units_app, !elem_of_app.
    right. left. by apply list_elem_of_singleton. }
  split; [|split; [|split]].
  - intros E. rewrite E in Hdash. by apply elem_of_nil in Hdash.
  - unfold uniqueName. rewrite !units_app.
    rewrite !elem_of_app. intros [H|[H|[H|H]]].
    + done.
    + cbn in H. by apply list_elem_of_singleton in H.
    + apply string_of_Z_units in H as [H|H]; [|done].
      unfold digit in H. cbn in H.
      repeat (apply elem_of_cons in H as [H|H]; [done|]).
      by apply elem_of_nil in H.
    + by apply extname_no_slash in H.
  - intros E. rewrite E in Hdash.
    by apply list_elem_of_singleton in Hdash.
  - intros E. rewrite E in Hdash.
    apply elem_of_cons in Hdash as [?|Hdash]; [done|].
    by apply list_elem_of_singleton in Hdash.
Qed.

Variable env : Env.

(** C10. For each of the nine conversion and OCR routes and a request
    whose upload was stored by the disk storage, under
    [path.join(TEMP_DIR, name)]: the first thing the handler does is
    answer, with the converter's result or with its error; what follows
    is the clean-up of the uploaded path and nothing else, and no other
    file is touched. An unlink is tried only when the stored path starts
    with the text of [TEMP_DIR], and then the file is gone afterwards
    unless the unlink was refused. With [TEMP_DIR] unset the upload is
    stored under /tmp/document-processing/ and the test passes. With
    [TEMP_DIR=./uploads] the upload is stored under [uploads/], the test
    fails, and the file is left where it is. *)
Theorem upload_removed_after_answer (sv : services) (ep : endpoint)
    (req : request) (w : fs) (uuid originalname mimetype : string)
    (now size : Z)
    (Huuid : slash ∉ list_ascii_of_string uuid)
    (Hf : req_file req
          = Some (stored env uuid now originalname mimetype size)) :
  let f := stored env uuid now originalname mimetype size in
  ∃ w1 r evs w2,
    work sv ep req f w = (w1, r)
    ∧ handler env sv ep req w
      = (Answer (match r with inl e => Next e | inr resp => Responded resp end)
           :: evs, w2)
    ∧ (∀ e, e ∈ evs → e = ConsoleError ∨ ∃ ok, e = Unlink (path f) ok)
    ∧ (String.prefix (tempDir env) (path f) = false → evs = [] ∧ w2 = w1)
    ∧ (String.prefix (tempDir env) (path f) = true →
         (∃ ok, head evs = Some (Unlink (path f) ok))
         ∧ (path f ∉ denied w1 → path f ∉ files w2))
    ∧ (∀ p, p ≠ path f → p ∈ files w2 ↔ p ∈ files w1)
    ∧ (env !! "TEMP_DIR" = None →
         path f = "/tmp/document-processing/" +:+ filename f
         ∧ String.prefix (tempDir env) (path f) = true)
    ∧ (env !! "TEMP_DIR" = Some "./uploads" →
         path f = "uploads/" +:+ filename f
         ∧ String.prefix (tempDir env) (path f) = false).
Proof.
  intros f.
  destruct (cleanup_after_answer env sv ep req f w Hf)
    as (w1 & r & evs & w2 & H1 & H2 & H3 & H4 & H5 & H6).
  exists w1, r, evs, w2.
  do 6 (split; [done|]).
  destruct (uniqueName_simple uuid originalname now Huuid)
    as (Hne & Hs & Hd1 & Hd2).
  assert (Hjoin : ∀ dir, dir ≠ "" → tempDir env = dir →
            path f
            = string_of_list_ascii
                ((if bool_decide (head (list_ascii_of_string dir) = Some slash)
                  then [slash] else [])
                 ++ glue (reverse
                      (list_ascii_of_string (filename f)
                       :: foldl (step (negb (bool_decide
                            (head (list_ascii_of_string dir) = Some slash))))
                            [] (split (list_ascii_of_string dir)))))).
  { intros dir Hdir Ht. unfold f, stored. cbn [path filename].
    rewrite Ht. by apply join_simple. }
  split.
  - intros He.
    assert (Ht : tempDir env = "/tmp/document-processing")
      by (unfold tempDir; by rewrite He).
    rewrite (Hjoin "/tmp/document-processing" ltac:(done) Ht), Ht.
    split; [|reflexivity].
    apply (string_of_app (list_ascii_of_string "/tmp/document-processing/")).
  - intros He.
    assert (Ht : tempDir env = "./uploads")
      by (unfold tempDir; by rewrite He).
    rewrite (Hjoin "./uploads" ltac:(done) Ht), Ht.
    split; [|reflexivity].
    apply (string_of_app (list_ascii_of_string "uploads/")).
Qed.

End StoredUploads.

(** ** Stored uploads at concrete inputs *)
Section StoredInstances.
Import Upload Examples.

(** An upload whose conversion fails, with [TEMP_DIR] unset: the error
    is passed on, then the file is unlinked. The same with
    [TEMP_DIR=./uploads]: the file stays. *)
Lemma upload_removed_after_answer_failing :
  (req_file Samples.upload_request
     = Some (Filters.stored ∅ "3f2a" 1700000000000 "report.docx"
               "application/msword" 2048)
   ∧ ∃ o evs w2,
       handler ∅ Samples.failing_services OfficeToPdf Samples.upload_request
         Samples.disk = (Answer o :: evs, w2)
       ∧ "/tmp/document-processing/3f2a-1700000000000.docx" ∈ files Samples.disk
       ∧ "/tmp/document-processing/3f2a-1700000000000.docx" ∉ files w2)
  ∧ (req_file relative_request
       = Some (Filters.stored relative_env "3f2a" 1700000000000 "report.docx"
                 "application/msword" 2048)
     ∧ ∃ o,
         handler relative_env Samples.failing_services OfficeToPdf
           relative_request relative_disk = ([Answer o], relative_disk)
         ∧ path relative_upload = "uploads/3f2a-1700000000000.docx"
         ∧ path relative_upload ∈ files relative_disk).
Proof.
  split.
  - split; [reflexivity|].
    destruct (upload_removed_after_answer ∅ Samples.failing_services
                OfficeToPdf Samples.upload_request Samples.disk
                "3f2a" "report.docx" "application/msword" 1700000000000 2048)
      as (w1 & r & evs & w2 & H1 & H2 & _ & _ & H5 & _ & H7 & _).
    { intros H. vm_compute in H.
      repeat (apply elem_of_cons in H as [H|H]; [discriminate H|]).
      by apply elem_of_nil in H. }
    { reflexivity. }
    destruct (H7 eq_refl) as [Hp Hpre].
    destruct (H5 Hpre) as [_ Hgone].
    change (work _ _ _ _ _)
      with (Samples.disk,
            (inl (Errors.ConversionError "Failed to convert")
               : Errors.error + response)) in H1.
    injection H1 as <- <-.
    eexists _, evs, w2. split; [exact H2|]. split.
    + unfold Samples.disk. cbn [files].
      apply elem_of_singleton_2. reflexivity.
    + apply Hgone. unfold Samples.disk. cbn [denied].
      apply not_elem_of_empty.
  - split; [reflexivity|].
    destruct (upload_removed_after_answer relative_env
                Samples.failing_services OfficeToPdf relative_request
                relative_disk "3f2a" "report.docx" "application/msword"
                1700000000000 2048)
      as (w1 & r & evs & w2 & H1 & H2 & _ & H4 & _ & _ & _ & H8).
    { intros H. vm_compute in H.
      repeat (apply elem_of_cons in H as [H|H]; [discriminate H|]).
      by apply elem_of_nil in H. }
    { reflexivity. }
    destruct (H8 eq_refl) as [Hp Hpre].
    destruct (H4 Hpre) as [-> ->].
    change (work _ _ _ _ _)
      with (relative_disk,
            (inl (Errors.ConversionError "Failed to convert")
               : Errors.error + response)) in H1.
    injection H1 as <- <-.
    eexists. split; [exact H2|]. split; [reflexivity|].
    unfold relative_disk. cbn [files].
    apply elem_of_singleton_2. reflexivity.
Defined.

End StoredInstances.

(** ** The sweep of the temporary directory *)
Section Sweeping.
Import Sweep.

(** X12. When no call is rejected during the sweep, the files left are
    exactly those modified at most thirty minutes before it started, in
    their order; a file exactly thirty minutes old stays. *)
Theorem sweep_removes_old (now : Z) (files : list entry)
    (Hok : Forall (passes now) files) :
  (sweep now files).1 = filter (fun file => ¬ old now file) files
  ∧ ErrorLogged ∉ (sweep now files).2.
Proof.
  induction Hok as [|file rest (mtime & Hm & Hrem) _ [IH1 IH2]].
  - split; [done|]. by intros ?%elem_of_nil.
  - cbn [sweep]. rewrite Hm.
    destruct (sweep now rest) as [kept logs] eqn:Es. cbn in IH1, IH2.
    destruct (Z.gtb_spec (now - mtime) maxAge) as [Hold|Hyoung].
    + rewrite Hrem by lia.
      rewrite filter_cons_False
        by (intros Hn; apply Hn; exists mtime; split; [done|lia]).
      cbn. split; [done|].
      intros [?|?]%elem_of_cons; done.
    + rewrite filter_cons_True
        by (intros (m & Hm' & Hlt); rewrite Hm in Hm'; injection Hm' as <-; lia).
      cbn. split; [by rewrite IH1|done].
Qed.

(** X13. The first file on which [stat] or [unlink] is rejected ends the
    sweep: it and every file listed after it stay as they are, however
    old, and the error is logged once. *)
Theorem sweep_stops_at_rejection (now : Z) (files rest : list entry)
    (bad : entry)
    (Hok : Forall (passes now) files)
    (Hbad : ¬ passes now bad) :
  (sweep now (files ++ bad :: rest)).1
    = filter (fun file => ¬ old now file) files ++ bad :: rest
  ∧ ErrorLogged ∈ (sweep now (files ++ bad :: rest)).2.
Proof.
  induction Hok as [|file files' (mtime & Hm & Hrem) _ [IH1 IH2]].
  - cbn. destruct (mtimeMs bad) as [mtime|] eqn:Hm.
    + destruct (Z.gtb_spec (now - mtime) maxAge) as [Hold|Hyoung].
      * destruct (removable bad) eqn:Hr.
        { exfalso. apply Hbad. exists mtime. done. }
        cbn. split; [done|left].
      * exfalso. apply Hbad. exists mtime. split; [done|lia].
    + cbn. split; [done|left].
  - cbn [app sweep]. rewrite Hm.
    destruct (sweep now (files' ++ bad :: rest)) as [kept logs] eqn:Es.
    cbn in IH1, IH2.
    destruct (Z.gtb_spec (now - mtime) maxAge) as [Hold|Hyoung].
    + rewrite Hrem by lia.
      rewrite filter_cons_False
        by (intros Hn; apply Hn; exists mtime; split; [done|lia]).
      cbn. split; [done|by right].
    + rewrite filter_cons_True
        by (intros (m & Hm' & Hlt); rewrite Hm in Hm'; injection Hm' as <-; lia).
      cbn. split; [by rewrite IH1|done].
Qed.

End Sweeping.

(** ** The office converter and its route *)
Section OfficeFiles.
Import Upload Office.

Variable c : collaborators.
Variable env : Env.

Lemma unlink_files (p : string) (w : fs) :
  p ∉ denied w →
  files (default w (unlink p w)) = files w ∖ {[p]}
  ∧ denied (default w (unlink p w)) = denied w.
Proof.
  intros Hd. unfold unlink.
  destruct (decide (p ∈ files w ∧ p ∉ denied w)) as [[Hin _]|Hn]; cbn.
  - done.
  - split; [|done]. apply set_eq. intros x.
    rewrite elem_of_difference, elem_of_singleton.
    split; [|tauto]. intros Hx. split; [done|].
    intros ->. apply Hn. done.
Qed.

(** The files after [processOfficeConversion], in both outcomes. *)
Lemma office_files_after (file : Upload.file) (w : fs) :
  outputPath c env file ∉ denied w →
  files (processOfficeConversion c env file w).1
    = files w ∖ {[outputPath c env file]}
  ∧ denied (processOfficeConversion c env file w).1 = denied w.
Proof.
  intros Hd. unfold processOfficeConversion, convertOfficeToPDF.
  set (out := outputPath c env file) in *.
  destruct (decide (Upload.path file ∈ files w)) as [Hin|Hin].
  - destruct (libreConvert c _) as [error|pdf].
    + cbn. by apply unlink_files.
    + unfold unlink; cbn.
      rewrite decide_True
        by (split; [apply elem_of_union_r; by apply elem_of_singleton | done]).
      cbn. split; [|done]. apply set_eq. intros x.
      rewrite !elem_of_difference, elem_of_union, elem_of_singleton. tauto.
  - cbn. by apply unlink_files.
Qed.

(** X14. Whether the conversion goes through or not, the PDF it writes
    does not stay behind: unless its unlink is refused, the files after
    [processOfficeConversion] are those before it minus the output path,
    which also removes whatever was stored at that path beforehand. *)
Theorem office_output_not_left (file : Upload.file) (w : fs)
    (Hd : outputPath c env file ∉ denied w) :
  files (processOfficeConversion c env file w).1
    = files w ∖ {[outputPath c env file]}
  ∧ denied (processOfficeConversion c env file w).1 = denied w.
Proof. by apply office_files_after. Qed.


End OfficeFiles.

(** ** The OCR worker *)
Section OcrWorker.
Import Ocr.

Variable e : engine.

(** X16. The worker keeps the last language it was initialised with. After
    a request for a language other than [eng] has been served, a request
    for [eng] is recognised by the worker as it is, in that other
    language, and the result is still labelled [eng]. *)
Theorem eng_after_other_language (w w1 : worker)
    (originalname path language outputFormat : string) (r1 : json)
    (Hl : language ≠ "eng")
    (H1 : extractTextFromImage e w originalname path language outputFormat
          = (w1, inr r1)) :
  w1 = Some (Some language)
  ∧ ∀ originalname2 path2 outputFormat2,
      extractTextFromImage e w1 originalname2 path2 "eng" outputFormat2
      = (w1,
         match recognize e (Some language) path2 with
         | inl error => inl (failed error)
         | inr (d, t) => inr (result_json originalname2 "eng" outputFormat2 d t)
         end).
Proof.
  assert (w1 = Some (Some language)) as ->.
  { unfold extractTextFromImage in H1.
    destruct (initializeWorker e w) as [w0 [error|lang]]; [done|].
    destruct (String.eqb_spec language "eng") as [?|_]; [done|]. cbn in H1.
    destruct (loads e language); [done|].
    destruct (recognize e (Some language) path) as [?|[d t]]; [done|].
    by injection H1 as <- _. }
  split; [done|]. intros originalname2 path2 outputFormat2.
  unfold extractTextFromImage. cbn.
  by destruct (recognize e (Some language) path2) as [?|[d t]].
Qed.

(** X17. When the first use fails while loading [eng], the worker stays
    cached without a language: the request fails, and from then on a
    request for [eng] never loads it again, even with an engine on which
    loading would go through; it is recognised on the worker as it is. *)
Theorem eng_never_loaded_again (originalname path language outputFormat : string)
    (error : Errors.error)
    (Hc : creates e = None)
    (Hload : loads e "eng" = Some error) :
  extractTextFromImage e None originalname path language outputFormat
    = (Some None, inl (failed error))
  ∧ ∀ (e' : engine) originalname2 path2 outputFormat2,
      extractTextFromImage e' (Some None) originalname2 path2 "eng" outputFormat2
      = (Some None,
         match recognize e' None path2 with
         | inl error' => inl (failed error')
         | inr (d, t) => inr (result_json originalname2 "eng" outputFormat2 d t)
         end).
Proof.
  split.
  - unfold extractTextFromImage, initializeWorker. by rewrite Hc, Hload.
  - intros e' originalname2 path2 outputFormat2.
    unfold extractTextFromImage. cbn.
    by destruct (recognize e' None path2) as [?|[d t]].
Qed.

End OcrWorker.

(** ** The window of the listing, for parameters given in the query *)
Section Window.
Import Jobs.

Lemma digit_not_ws (c : ascii) (d : Z) :
  Js.digit_val 10 c = Some d → Js.is_ws c = false.
Proof.
  destruct c as [[] [] [] [] [] [] [] []]; vm_compute; congruence.
Qed.

Lemma digit_no_sign (c : ascii) (d : Z) (s : string) :
  Js.digit_val 10 c = Some d → Js.strip_sign (String c s) = (1, String c s).
Proof.
  destruct c as [[] [] [] [] [] [] [] []]; vm_compute; congruence.
Qed.

Lemma digit_val_range (c : ascii) (d : Z) :
  Js.digit_val 10 c = Some d → 0 <= d < 10.
Proof.
  destruct c as [[] [] [] [] [] [] [] []]; vm_compute; intros [= <-];
    split; congruence.
Qed.

Lemma append_cons (ch : ascii) (a b : string) :
  String ch a +:+ b = String ch (a +:+ b).
Proof. reflexivity. Qed.

Lemma all_digits_app (a b : string) :
  Js.all_digits (a +:+ b) = Js.all_digits a && Js.all_digits b.
Proof.
  induction a as [|c a IH]; [done|]. rewrite append_cons. cbn.
  destruct (Js.digit_val 10 c); [exact IH|done].
Qed.

Lemma append_assoc (a b d : string) : (a +:+ b) +:+ d = a +:+ (b +:+ d).
Proof.
  induction a as [|ch a IH]; [done|]. rewrite !append_cons. by f_equal.
Qed.

Lemma append_nil_r (a : string) : a +:+ "" = a.
Proof.
  induction a as [|ch a IH]; [done|]. rewrite append_cons. by f_equal.
Qed.

Lemma rev_string_app (s acc : string) :
  Js.rev_string s acc = Js.rev_string s "" +:+ acc.
Proof.
  revert acc. induction s as [|c s IH]; intros acc; cbn; [done|].
  rewrite IH, (IH (String c "")).
  by rewrite append_assoc.
Qed.

Lemma rev_string_involutive (s : string) :
  Js.rev_string (Js.rev_string s "") "" = s.
Proof.
  assert (∀ s acc, Js.rev_string (Js.rev_string s acc) ""
                   = Js.rev_string acc "" +:+ s) as H.
  { clear s. induction s as [|c s IH]; intros acc; cbn.
    - by rewrite append_nil_r.
    - rewrite IH. cbn. rewrite (rev_string_app acc (String c "")).
      by rewrite append_assoc. }
  by rewrite H.
Qed.

Lemma all_digits_rev (s acc : string) :
  Js.all_digits (Js.rev_string s acc) = Js.all_digits s && Js.all_digits acc.
Proof.
  revert acc. induction s as [|c s IH]; intros acc; cbn; [done|].
  rewrite IH. cbn. destruct (Js.digit_val 10 c); cbn; [done|].
  by rewrite andb_false_r.
Qed.

Lemma skip_ws_digits (s : string) :
  Js.all_digits s = true → Js.skip_ws s = s.
Proof.
  destruct s as [|c s]; [done|]. cbn.
  destruct (Js.digit_val 10 c) as [d|] eqn:E; [|done].
  by rewrite (digit_not_ws c d E).
Qed.

Lemma trim_digits (s : string) : Js.all_digits s = true → Js.trim s = s.
Proof.
  intros H. unfold Js.trim. rewrite (skip_ws_digits s H).
  rewrite skip_ws_digits; [apply rev_string_involutive|].
  by rewrite all_digits_rev, H.
Qed.

(** Reading digits after an accumulated value shifts that value. *)
Lemma digits_prefix_shift (s : string) :
  Js.all_digits s = true →
  ∀ a, 0 <= a →
    ∃ b, Js.digits_prefix 10 s (Some 0) = Some b
         ∧ 0 <= b < 10 ^ Z.of_nat (String.length s)
         ∧ Js.digits_prefix 10 s (Some a)
           = Some (a * 10 ^ Z.of_nat (String.length s) + b).
Proof.
  induction s as [|c s IH]; intros Hs a Ha.
  - exists 0. cbn. repeat split; [lia..|]. f_equal. lia.
  - cbn in Hs. cbn [Js.digits_prefix].
    destruct (Js.digit_val 10 c) as [d|] eqn:E; [|done].
    pose proof (digit_val_range c d E) as Hd.
    destruct (IH Hs (a * 10 + d)) as (b & Hb & Hb0 & Hab); [lia|].
    destruct (IH Hs (0 * 10 + d)) as (b' & Hb' & Hb0' & Hdb); [lia|].
    cbv [default from_option id]. rewrite Hab, Hdb.
    rewrite Hb in Hb'. injection Hb' as <-.
    eexists. split; [reflexivity|].
    cbn [String.length]. rewrite Nat2Z.inj_succ, Z.pow_succ_r by lia.
    split; [nia|]. f_equal. lia.
Qed.

(** A number of at most 15 digits is a safe integer. *)
Lemma digits_safe (k : nat) (n : Z) :
  (k ≤ 15)%nat → 0 <= n < 10 ^ Z.of_nat k → Js.safe n = true.
Proof.
  intros Hk Hn.
  assert (10 ^ Z.of_nat k <= 10 ^ 15) by (apply Z.pow_le_mono_r; lia).
  unfold Js.safe, Js.max_safe. apply andb_true_iff. split; lia.
Qed.

Lemma digits_prefix_None (s : string) :
  s ≠ "" → Js.all_digits s = true →
  Js.digits_prefix 10 s None = Js.digits_prefix 10 s (Some 0).
Proof.
  destruct s as [|c s]; [done|]. intros _ Hs. cbn in Hs.
  cbn [Js.digits_prefix].
  destruct (Js.digit_val 10 c); [reflexivity|done].
Qed.

Lemma digits_prefix_app (a b : string) (acc : option Z) :
  Js.all_digits a = true →
  Js.digits_prefix 10 (a +:+ b) acc
  = Js.digits_prefix 10 b (Js.digits_prefix 10 a acc).
Proof.
  revert acc. induction a as [|c a IH]; intros acc Ha; [done|].
  rewrite append_cons. cbn in *.
  destruct (Js.digit_val 10 c); [by apply IH|done].
Qed.

Lemma append_length (a b : string) :
  String.length (a +:+ b) = (String.length a + String.length b)%nat.
Proof.
  induction a as [|c a IH]; [done|].
  rewrite append_cons. cbn [String.length]. by rewrite IH.
Qed.

(** The number a string of at most 15 digits stands for. *)
Lemma toNumber_digits (s : string) :
  s ≠ "" → Js.all_digits s = true → (String.length s ≤ 15)%nat →
  Js.toNumber_string s = Js.digits_prefix 10 s (Some 0).
Proof.
  intros Hne Hs Hlen. unfold Js.toNumber_string. rewrite (trim_digits s Hs).
  destruct (digits_prefix_shift s Hs 0) as (z & Hz & Hz0 & _); [lia|].
  pose proof (digits_safe _ z Hlen Hz0) as Hsafe.
  destruct s as [|c s]; [done|].
  assert (∃ d, Js.digit_val 10 c = Some d) as [d E].
  { cbn in Hs. destruct (Js.digit_val 10 c); [eauto|done]. }
  rewrite (digit_no_sign c d s E), Hs.
  rewrite digits_prefix_None by done.
  rewrite Hz. cbn. rewrite Hsafe. f_equal. lia.
Qed.

(** X18. When [offset] and [limit] both come from the query as strings of
    digits standing for the numbers [a] and [b], of at most 15 digits
    together (so that every number involved is a safe integer), the
    window handed to the store starts at [a] and ends at
    [a * 10^n + b - 1], where [n] is the number of digits of [limit]: the
    two strings are joined, not added. The end is the intended
    [a + b - 1] only when the offset is zero. *)
Theorem window_of_query_digits (offset limit : string)
    (Ho : offset ≠ "") (Hl : limit ≠ "")
    (Hod : Js.all_digits offset = true) (Hld : Js.all_digits limit = true)
    (Hlen : (String.length offset + String.length limit ≤ 15)%nat) :
  ∃ a b,
    Js.toNumber (Js.VStr offset) = Some a
    ∧ Js.toNumber (Js.VStr limit) = Some b
    ∧ 0 <= a ∧ 0 <= b
    ∧ window (Js.VStr offset) (Js.VStr limit)
      = Some (a, a * 10 ^ Z.of_nat (String.length limit) + b - 1)
    ∧ (a * 10 ^ Z.of_nat (String.length limit) + b - 1 = a + b - 1 ↔ a = 0).
Proof.
  destruct (digits_prefix_shift offset Hod 0) as (a & Ha & Ha0 & _); [lia|].
  destruct (digits_prefix_shift limit Hld a (proj1 Ha0))
    as (b & Hb & Hb0 & Hab).
  exists a, b. cbn [Js.toNumber].
  rewrite !toNumber_digits by (done || lia). rewrite Ha, Hb.
  split; [done|]. split; [done|]. split; [lia|]. split; [lia|]. split.
  - unfold window, Js.sub_lit. cbn [Js.toNumber Js.add Js.toString].
    rewrite (toNumber_digits offset Ho Hod), Ha by lia.
    cbn [mbind option_bind Js.toNumber].
    rewrite toNumber_digits.
    + rewrite digits_prefix_app, Ha, Hab by done. reflexivity.
    + destruct offset; done.
    + by rewrite all_digits_app, Hod, Hld.
    + rewrite append_length. lia.
  - assert (1 < 10 ^ Z.of_nat (String.length limit)).
    { destruct limit as [|ch limit]; [done|]. cbn [String.length].
      rewrite Nat2Z.inj_succ, Z.pow_succ_r by lia.
      assert (0 < 10 ^ Z.of_nat (String.length limit))
        by (apply Z.pow_pos_nonneg; lia).
      lia. }
    split; [nia | intros ->; lia].
Qed.

End Window.

(** ** Requests without a file, and the prefix test of the clean-up *)
Section UploadEdges.
Import Upload.

Variable env : Env.

(** X19. On each of the nine routes a request that carries no file is
    answered 400 [VALIDATION_ERROR] with the message of the route; no
    converter is called, nothing is unlinked and the file system is as
    before. *)
Theorem upload_missing_file (sv : services) (ep : endpoint) (req : request)
    (w : fs) (Hf : req_file req = None) :
  handler env sv ep req w
    = ([Answer (Next (Errors.ValidationError (missing_file ep)))], w)
  ∧ Errors.errorHandler env (Errors.ValidationError (missing_file ep))
    = json_response 400 (JObject [
        ("error", JString "Validation failed");
        ("message", JString (missing_file ep));
        ("details", JObject []);
        ("code", JString "VALIDATION_ERROR")]).
Proof. unfold handler. rewrite Hf. done. Qed.

Lemma prefix_app (a b : string) : String.prefix a (a +:+ b) = true.
Proof.
  induction a as [|ch a IH]; [by destruct b|].
  rewrite append_cons. cbn.
  destruct (Ascii.ascii_dec ch ch); [done|done].
Qed.

(** X20. The test of [cleanupFile] is a test on the text of the path, not
    on the directory: any existing path that begins with the text of the
    temporary directory is unlinked, for instance one in a sibling
    directory whose name merely starts the same. *)
Theorem cleanupFile_text_prefix (rest : string) (w : fs)
    (Hin : (tempDir env +:+ rest) ∈ files w)
    (Hd : (tempDir env +:+ rest) ∉ denied w) :
  cleanupFile env (tempDir env +:+ rest) w
  = ([Unlink (tempDir env +:+ rest) true],
     {| files := files w ∖ {[tempDir env +:+ rest]}; denied := denied w |}).
Proof.
  destruct (cleanupFile_inside env (tempDir env +:+ rest) w (prefix_app _ _))
    as [(_ & _ & H) | (Hn & _)]; [done|].
  destruct Hn. done.
Qed.

End UploadEdges.

(** ** The number of attempts read from the environment *)
Section Attempts.
Import Queue.

Lemma strip_hex_digits (s : string) :
  Js.all_digits s = true → Js.strip_hex s = (10, s).
Proof.
  destruct s as [|c [|c2 s]]; [done| |].
  - intros _. destruct c as [[] [] [] [] [] [] [] []]; reflexivity.
  - intros H.
    destruct c as [[] [] [] [] [] [] [] []]; try reflexivity.
    destruct c2 as [[] [] [] [] [] [] [] []]; try reflexivity;
      vm_compute in H; discriminate.
Qed.

(** X21. For [JOB_ATTEMPTS] given as a string of at most 15 digits standing
    for [n] (so that [n] is a safe integer), the queue is configured with
    [n] attempts, except that [0] gives the default 3: retries cannot be
    switched off with [JOB_ATTEMPTS=0]. *)
Theorem attempts_of_digits (env : Env) (s : string)
    (He : env !! "JOB_ATTEMPTS" = Some s)
    (Hne : s ≠ "") (Hs : Js.all_digits s = true)
    (Hlen : (String.length s ≤ 15)%nat) :
  ∃ n, Js.toNumber (Js.VStr s) = Some n ∧ 0 <= n
       ∧ attempts env = Js.Num (if n =? 0 then 3 else n).
Proof.
  destruct (digits_prefix_shift s Hs 0) as (n & Hn & Hn0 & _); [lia|].
  pose proof (digits_safe _ n Hlen Hn0) as Hsafe.
  exists n. cbn [Js.toNumber]. rewrite toNumber_digits, Hn by done.
  split; [done|]. split; [lia|].
  unfold attempts. rewrite He. cbn [Js.of_option Js.parseInt].
  unfold Js.parseInt_string. rewrite (skip_ws_digits s Hs).
  destruct s as [|c s']; [done|].
  assert (∃ d, Js.digit_val 10 c = Some d) as [d E].
  { cbn in Hs. destruct (Js.digit_val 10 c); [eauto|done]. }
  rewrite (digit_no_sign c d s' E), (strip_hex_digits _ Hs).
  rewrite digits_prefix_None, Hn by done.
  unfold Js.of_Z. rewrite Z.mul_1_l, Hsafe.
  unfold Js.or_num, Js.truthy_num.
  by destruct (n =? 0).
Qed.

End Attempts.

(** ** A refused unlink after a conversion that went through *)
Section OfficeRefused.
Import Upload Office.

(** X22. When the conversion itself goes through but the unlink of the
    PDF is refused, [processOfficeConversion] throws the error of the
    unlink, not a [ConversionError], no result is returned, and the PDF
    stays in the temporary directory. *)
Theorem office_unlink_refused (c : collaborators) (env : Env)
    (file : Upload.file) (w : fs) (pdf : string)
    (Hin : Upload.path file ∈ files w)
    (Hpdf : libreConvert c (readInput c (Upload.path file)) = inr pdf)
    (Hd : outputPath c env file ∈ denied w) :
  processOfficeConversion c env file w
  = ({| files := files w ∪ {[outputPath c env file]}; denied := denied w |},
     inl (fs_rejection c "unlink" (outputPath c env file))).
Proof.
  unfold processOfficeConversion, convertOfficeToPDF.
  rewrite decide_True by done. rewrite Hpdf.
  unfold unlink. rewrite decide_False; [done|].
  intros [_ Hn]. by apply Hn.
Qed.

End OfficeRefused.

(** ** The further properties at concrete inputs *)
Section MoreInstances.
Import Examples.

Lemma not_in_list {A} (x : A) (l : list A) :
  Forall (fun y => x ≠ y) l → x ∉ l.
Proof.
  induction 1 as [|y l Hy _ IH]; [by intros ?%elem_of_nil|].
  intros [->|?]%elem_of_cons; done.
Qed.

Lemma csv_row_read_back_cells :
  comma ≠ Csv.dquote
  ∧ ∃ line,
      Csv.csv_row Csv.dquote [comma] cells = Some line
      ∧ Csv.parseCSVRow Csv.dquote line [comma] = Csv.shown Csv.dquote <$> cells.
Proof.
  assert (comma ≠ Csv.dquote) as Hd by (vm_compute; discriminate).
  split; [exact Hd|].
  apply (csv_row_read_back Csv.dquote comma cells Hd).
  - vm_compute. discriminate.
  - apply not_in_list. vm_compute. repeat constructor; discriminate.
Defined.

Lemma parseCSVRow_plain_fields :
  comma ≠ Csv.dquote
  ∧ Csv.parseCSVRow Csv.dquote (Csv.join [comma] plain_fields) [comma]
    = plain_fields.
Proof.
  assert (comma ≠ Csv.dquote) as Hd by (vm_compute; discriminate).
  split; [exact Hd|].
  apply (parseCSVRow_plain Csv.dquote comma plain_fields Hd).
  - vm_compute. discriminate.
  - intros f Hf. vm_compute in Hf.
    repeat (apply elem_of_cons in Hf as [->|Hf];
            [split; apply not_in_list; repeat constructor; discriminate|]).
    by apply elem_of_nil in Hf.
Defined.

Lemma csv_row_null_cell_second :
  Csv.Null ∈ [Csv.cell_of (Csv.VNumber 5); Csv.cell_of Csv.VNull]
  ∧ Csv.csv_row Csv.dquote [comma]
      [Csv.cell_of (Csv.VNumber 5); Csv.cell_of Csv.VNull] = None.
Proof.
  assert (Csv.Null ∈ [Csv.cell_of (Csv.VNumber 5); Csv.cell_of Csv.VNull])
    as Hin by (right; left).
  split; [exact Hin|].
  apply (csv_row_null_cell Csv.dquote [comma] _ Hin).
Defined.

Lemma parseCSVRow_unclosed_quote_row :
  comma ≠ Csv.dquote
  ∧ Csv.parseCSVRow Csv.dquote
      (Csv.units "a" ++ Csv.dquote :: Csv.units "b,c") [comma]
    = [Csv.units "a" ++ Csv.units "b,c"].
Proof.
  assert (comma ≠ Csv.dquote) as Hd by (vm_compute; discriminate).
  split; [exact Hd|].
  apply (parseCSVRow_unclosed_quote Csv.dquote comma _ _ Hd).
  - split; apply not_in_list; vm_compute; repeat constructor; discriminate.
  - apply not_in_list; vm_compute; repeat constructor; discriminate.
Defined.

Lemma parseCSVRow_long_delimiter_row :
  length (Csv.units "||") ≠ 1%nat
  ∧ ∃ f, Csv.parseCSVRow Csv.dquote (Csv.units "a||b") (Csv.units "||") = [f]
         ∧ (Csv.dquote ∉ Csv.units "a||b" → f = Csv.units "a||b").
Proof.
  assert (length (Csv.units "||") ≠ 1%nat) as Hl by (vm_compute; lia).
  split; [exact Hl|].
  apply (parseCSVRow_long_delimiter Csv.dquote _ _ Hl).
Defined.

Lemma errorHandler_hides_message_internal :
  production !! "NODE_ENV" = Some "production"
  ∧ Errors.errorHandler production internal_error
    = Errors.errorHandler production internal_error'.
Proof.
  split; [reflexivity|].
  apply errorHandler_hides_message;
    [reflexivity | reflexivity | reflexivity | reflexivity |].
  apply not_in_list. repeat constructor; discriminate.
Defined.

Lemma uniqueName_no_slash_traversal :
  (Path.slash ∉ list_ascii_of_string "3f2a")
  ∧ (Path.slash ∉ list_ascii_of_string
       (Filters.uniqueName "3f2a" 1700000000000 "../../etc/cron.d/job.sh")).
Proof.
  assert (Path.slash ∉ list_ascii_of_string "3f2a") as Hu.
  { apply not_in_list. vm_compute. repeat constructor; discriminate. }
  split; [exact Hu|].
  apply (uniqueName_no_slash "3f2a" _ 1700000000000 Hu).
Defined.

Lemma excel_accepted_by_office_xls :
  Filters.fileFilter Filters.Excel "Budget.XLS" "application/octet-stream" = inr ()
  ∧ Filters.fileFilter Filters.Office "Budget.XLS" "application/octet-stream" = inr ().
Proof.
  assert (Filters.fileFilter Filters.Excel "Budget.XLS" "application/octet-stream"
          = inr ()) as Hx by (vm_compute; reflexivity).
  split; [exact Hx|].
  apply (excel_accepted_by_office _ _ Hx).
Defined.

Lemma office_type_of_accepted_constructor :
  Filters.fileFilter Filters.Office "a.doc" "constructor" = inr ()
  ∧ match Filters.getOfficeFileType "a.doc" "constructor" with
    | inr ext => ext ∈ Filters.allowedExtensions Filters.Office
    | inl member => member = "constructor"
                    ∧ "constructor" ∈ Filters.prototype_members
    end.
Proof.
  assert (Filters.fileFilter Filters.Office "a.doc" "constructor" = inr ())
    as Hx by (vm_compute; reflexivity).
  split; [exact Hx|].
  apply (office_type_of_accepted _ _ Hx).
Defined.

Lemma passes_young : Sweep.passes 2800001 young.
Proof. exists 1000001. split; [reflexivity|]. vm_compute. done. Qed.

Lemma passes_aged : Sweep.passes 2800001 aged.
Proof. exists 1000000. split; [reflexivity|]. done. Qed.

Lemma sweep_removes_old_two :
  Forall (Sweep.passes 2800001) [young; aged]
  ∧ (Sweep.sweep 2800001 [young; aged]).1
    = filter (fun file => ¬ Sweep.old 2800001 file) [young; aged].
Proof.
  assert (Forall (Sweep.passes 2800001) [young; aged]) as Hok
    by (repeat constructor; [apply passes_young | apply passes_aged]).
  split; [exact Hok|].
  apply (sweep_removes_old 2800001 _ Hok).
Defined.

Lemma sweep_stops_at_rejection_directory :
  ¬ Sweep.passes 2800001 directory
  ∧ (Sweep.sweep 2800001 ([young] ++ directory :: [aged])).1
    = filter (fun file => ¬ Sweep.old 2800001 file) [young]
      ++ directory :: [aged].
Proof.
  assert (¬ Sweep.passes 2800001 directory) as Hbad.
  { intros (m & [= <-] & H). by specialize (H eq_refl). }
  split; [exact Hbad|].
  apply (sweep_stops_at_rejection 2800001 [young] [aged] directory);
    [|exact Hbad].
  repeat constructor. apply passes_young.
Defined.

Lemma office_output_not_left_uploaded :
  (Office.outputPath office ∅ Samples.uploaded ∉ Upload.denied Samples.disk)
  ∧ Upload.files
      (Office.processOfficeConversion office ∅ Samples.uploaded Samples.disk).1
    = Upload.files Samples.disk
      ∖ {[Office.outputPath office ∅ Samples.uploaded]}.
Proof.
  assert (Office.outputPath office ∅ Samples.uploaded
          ∉ Upload.denied Samples.disk) as Hd
    by (cbn; apply not_elem_of_empty).
  split; [exact Hd|].
  apply (office_output_not_left office ∅ Samples.uploaded Samples.disk Hd).
Defined.


Lemma eng_after_other_language_fra :
  "fra" ≠ "eng"
  ∧ ∀ originalname2 path2 outputFormat2,
      Ocr.extractTextFromImage tesseract (Some (Some "fra"))
        originalname2 path2 "eng" outputFormat2
      = (Some (Some "fra"),
         match Ocr.recognize tesseract (Some "fra") path2 with
         | inl error => inl (Ocr.failed error)
         | inr (d, t) =>
             inr (Ocr.result_json originalname2 "eng" outputFormat2 d t)
         end).
Proof.
  assert ("fra" ≠ "eng") as Hl by discriminate.
  split; [exact Hl|].
  apply (eng_after_other_language tesseract None (Some (Some "fra"))
           "menu.png" "/tmp/document-processing/menu.png" "fra" "text"
           (Ocr.result_json "menu.png" "fra" "text" no_data 120) Hl).
  reflexivity.
Defined.

Lemma eng_never_loaded_again_offline :
  Ocr.loads offline "eng" = Some Samples.econnrefused
  ∧ Ocr.extractTextFromImage offline None "menu.png"
      "/tmp/document-processing/menu.png" "eng" "text"
    = (Some None, inl (Ocr.failed Samples.econnrefused)).
Proof.
  split; [reflexivity|].
  apply (eng_never_loaded_again offline "menu.png"
           "/tmp/document-processing/menu.png" "eng" "text"
           Samples.econnrefused); reflexivity.
Defined.

Lemma window_of_query_digits_second_page :
  Js.all_digits "20" = true
  ∧ ∃ a b,
      Js.toNumber (Js.VStr "20") = Some a
      ∧ Js.toNumber (Js.VStr "20") = Some b
      ∧ 0 <= a ∧ 0 <= b
      ∧ Jobs.window (Js.VStr "20") (Js.VStr "20")
        = Some (a, a * 10 ^ Z.of_nat (String.length "20") + b - 1)
      ∧ (a * 10 ^ Z.of_nat (String.length "20") + b - 1 = a + b - 1 ↔ a = 0).
Proof.
  split; [reflexivity|].
  apply (window_of_query_digits "20" "20");
    [discriminate | discriminate | reflexivity | reflexivity | cbn; lia].
Defined.

Lemma upload_missing_file_ocr :
  Upload.req_file no_upload = None
  ∧ Upload.handler ∅ Samples.failing_services Upload.ExtractText no_upload
      Samples.disk
    = ([Upload.Answer
          (Next (Errors.ValidationError "No image file uploaded"))],
       Samples.disk).
Proof.
  split; [reflexivity|].
  apply (upload_missing_file ∅ Samples.failing_services Upload.ExtractText
           no_upload Samples.disk).
  reflexivity.
Defined.

Lemma cleanupFile_text_prefix_sibling :
  (Upload.tempDir ∅ +:+ "-old/keep.txt") ∈ Upload.files sibling_disk
  ∧ Upload.cleanupFile ∅ (Upload.tempDir ∅ +:+ "-old/keep.txt") sibling_disk
    = ([Upload.Unlink (Upload.tempDir ∅ +:+ "-old/keep.txt") true],
       {| Upload.files := Upload.files sibling_disk
                          ∖ {[Upload.tempDir ∅ +:+ "-old/keep.txt"]};
          Upload.denied := Upload.denied sibling_disk |}).
Proof.
  assert ((Upload.tempDir ∅ +:+ "-old/keep.txt") ∈ Upload.files sibling_disk)
    as Hin by (unfold sibling_disk; cbn [Upload.files];
               apply elem_of_singleton_2; reflexivity).
  split; [exact Hin|].
  apply (cleanupFile_text_prefix ∅ "-old/keep.txt" sibling_disk Hin).
  cbn. apply not_elem_of_empty.
Defined.

End MoreInstances.

Section LastInstances.
Import Examples.

Lemma attempts_of_digits_zero :
  ({[ "JOB_ATTEMPTS" := "0" ]} : Env) !! "JOB_ATTEMPTS" = Some "0"
  ∧ ∃ n, Js.toNumber (Js.VStr "0") = Some n ∧ 0 <= n
         ∧ Queue.attempts {[ "JOB_ATTEMPTS" := "0" ]}
           = Js.Num (if n =? 0 then 3 else n).
Proof.
  split; [reflexivity|].
  apply (attempts_of_digits {[ "JOB_ATTEMPTS" := "0" ]} "0");
    [reflexivity | discriminate | reflexivity | cbn; lia].
Defined.

Lemma office_unlink_refused_uploaded :
  Office.outputPath office ∅ Samples.uploaded ∈ Upload.denied locked_disk
  ∧ Office.processOfficeConversion office ∅ Samples.uploaded locked_disk
    = ({| Upload.files := Upload.files locked_disk
                          ∪ {[Office.outputPath office ∅ Samples.uploaded]};
          Upload.denied := Upload.denied locked_disk |},
       inl (Office.fs_rejection office "unlink"
              (Office.outputPath office ∅ Samples.uploaded))).
Proof.
  assert (Office.outputPath office ∅ Samples.uploaded
          ∈ Upload.denied locked_disk) as Hd
    by (unfold locked_disk; cbn [Upload.denied];
        apply elem_of_singleton_2; reflexivity).
  split; [exact Hd|].
  apply (office_unlink_refused office ∅ Samples.uploaded locked_disk
           ("%PDF" +:+ "docx")); [|reflexivity|exact Hd].
  unfold locked_disk; cbn [Upload.files].
  apply elem_of_singleton_2; reflexivity.
Defined.

End LastInstances.
